(** * Adaptive-force-matching reference tools: M-site insertion and
      line-count normalisation

    A shallow embedding of [scr_ref/xyz_add_gen_msite.py] and
    [scr_ref/xyz_fix_linenu.py].

    Conventions of the embedding.
    - A Python [str] is a [string]; its characters are read as the code
      points U+0000..U+00FF.
    - A text file is the list of its lines, as the file iterator and
      [readlines()] deliver them (each line carries its own newline).
    - [sys.stdout.write] calls are collected, in order, in a list of
      strings; one written string per call.
    - A Python exception that the code does not catch is a [Raise] result.
    - Python floats are kept abstract: the class [PyFloat] lists the
      operations the scripts use ([float(s)], [*], [sum], [%11.7f]).
    - The definition file is taken as already parsed: [main] starts from
      the list [definitions]. *)

From Stdlib Require Import Ascii String ZArith Lia DecimalString DecimalNat.
From Equations Require Import Equations.
From stdpp Require Import gmap strings list.

Local Open Scope string_scope.
Local Open Scope nat_scope.
Local Open Scope list_scope.

(** ** Python string primitives *)

Module PyStr.

(** [str.isspace] on the code points below 256: TAB..CR, FS..US, SPACE,
    NEL (0x85) and NBSP (0xA0). *)
Definition is_space (c : ascii) : bool :=
  let n := nat_of_ascii c in
  ((9 <=? n) && (n <=? 13)) || ((28 <=? n) && (n <=? 32))
  || (n =? 133) || (n =? 160).

(** [s.split()] with no argument: maximal runs of non-space characters.
    [cur] holds the characters of the token being read, last one first. *)
Fixpoint split_go (cur : list ascii) (s : list ascii) : list (list ascii) :=
  match s with
  | [] => match cur with [] => [] | _ => [rev cur] end
  | c :: s' =>
      if is_space c
      then match cur with
           | [] => split_go [] s'
           | _ => rev cur :: split_go [] s'
           end
      else split_go (c :: cur) s'
  end.

Definition split (s : string) : list string :=
  map string_of_list_ascii (split_go [] (list_ascii_of_string s)).

(** [s.strip()]: drop the leading and the trailing white space. *)
Fixpoint lstrip_go (s : list ascii) : list ascii :=
  match s with
  | [] => []
  | c :: s' => if is_space c then lstrip_go s' else s
  end.

Definition strip (s : string) : string :=
  string_of_list_ascii
    (rev (lstrip_go (rev (lstrip_go (list_ascii_of_string s))))).

Definition is_digit (c : ascii) : bool :=
  let n := nat_of_ascii c in (48 <=? n) && (n <=? 57).

Definition digit_val (c : ascii) : Z := Z.of_nat (nat_of_ascii c) - 48.

(** The digit part of an integer literal: digits, single underscores
    allowed between two digits.  [acc] is the value read so far and
    [after_digit] tells whether the previous character was a digit. *)
Fixpoint int_digits (acc : Z) (after_digit : bool) (s : list ascii)
  : option Z :=
  match s with
  | [] => if after_digit then Some acc else None
  | c :: s' =>
      if is_digit c then int_digits (10 * acc + digit_val c) true s'
      else if (Ascii.eqb c "_"%char) && after_digit
           then match s' with
                | d :: _ => if is_digit d then int_digits acc false s'
                            else None
                | [] => None
                end
           else None
  end.

(** [int(s)] for a token [s] (a string without white space): an optional
    sign and the digit part.  [None] stands for [ValueError].  The
    interpreter's bound on the number of digits is not modelled. *)
Definition py_int (s : string) : option Z :=
  match list_ascii_of_string s with
  | c :: ds =>
      if Ascii.eqb c "-"%char then Z.opp <$> int_digits 0 false ds
      else if Ascii.eqb c "+"%char then int_digits 0 false ds
      else int_digits 0 false (c :: ds)
  | [] => None
  end.

(** [str(n)] for a non-negative integer [n]. *)
Definition str_of_nat (n : nat) : string :=
  NilZero.string_of_uint (Nat.to_uint n).

(** [f"{s:<8s}"]: pad with spaces on the right up to 8 characters. *)
Fixpoint spaces (n : nat) : string :=
  match n with
  | O => ""
  | S n' => String " "%char (spaces n')
  end.

Definition ljust (w : nat) (s : string) : string :=
  s +:+ spaces (w - String.length s).

(** [l.insert(i, x)] for [i >= 0]: beyond the end it appends. *)
Definition list_insert_at {A} (i : nat) (x : A) (l : list A) : list A :=
  take i l ++ x :: drop i l.

End PyStr.

Import PyStr.

(** The newline character and a line made of a text and its newline. *)
Definition nl : string := String (ascii_of_nat 10) "".
Definition ln (s : string) : string := s +:+ nl.

(** ** xyz_fix_linenu.py *)

Module FixLinenu.

(** [is_line_count(line)]: exactly one token, and [int()] accepts it. *)
Definition is_line_count (line : string) : bool :=
  match split (strip line) with
  | [tok] => match py_int tok with Some _ => true | None => false end
  | _ => false
  end.

(** The dictionary appended to [frames]. *)
Record frame := Frame {
  count_line_index : nat;
  comment : string;
  lines : list string;
  actual_count : nat
}.

(** The inner [while]: body lines up to the next count line or the end
    of the input, and the lines left. *)
Fixpoint collect_body (ls : list string) : list string * list string :=
  match ls with
  | [] => ([], [])
  | l :: ls' =>
      if is_line_count l then ([], ls)
      else let '(body, rest) := collect_body ls' in (l :: body, rest)
  end.

Lemma collect_body_length ls :
  length (collect_body ls).2 <= length ls.
Proof.
  induction ls as [|l ls IH]; simpl; [lia|].
  destruct (is_line_count l); simpl; [lia|].
  destruct (collect_body ls) as [b r]; simpl in *; lia.
Qed.

(** The outer [while i < len(lines)]: [ls] is [lines[i:]]. *)
Equations? read_frames (i : nat) (ls : list string) : list frame
  by wf (length ls) lt :=
  read_frames i [] := [];
  read_frames i (l :: rest) with is_line_count l => {
    | false := read_frames (S i) rest
    | true with rest => {
        | [] := []
        | c :: rest' :=
            Frame i c (collect_body rest').1 (length (collect_body rest').1)
            :: read_frames (i + 2 + length (collect_body rest').1)
                 (collect_body rest').2 } }.
Proof.
  all: simpl; try lia.
  pose proof (collect_body_length rest'); lia.
Qed.

(** The three writes of the output loop, for one frame. *)
Definition write_frame (f : frame) : list string :=
  ln (str_of_nat (actual_count f)) :: comment f :: lines f.

(** [main()] after the input has been read: the list of written strings. *)
Definition main (input : list string) : list string :=
  flat_map write_frame (read_frames 0 input).

End FixLinenu.

(** ** Python floats and exceptions *)

(** The float operations of [xyz_add_gen_msite.py]. *)
Class PyFloat := {
  num : Type;
  (** [float(s)]; [None] stands for [ValueError] *)
  parse_float : string -> option num;
  (** [c * v] *)
  fmul : num -> num -> num;
  (** [sum(...)] of the products *)
  fsum : list num -> num;
  (** [f"{v:11.7f}"] *)
  format_11_7f : num -> string
}.

Inductive exn := IndexError.

Inductive result (A : Type) :=
| Ok (a : A)
| Raise (e : exn).
Arguments Ok {A} a.
Arguments Raise {A} e.

#[global] Instance result_ret : MRet result := fun A a => Ok a.
#[global] Instance result_bind : MBind result := fun A B k r =>
  match r with
  | Ok a => k a
  | Raise e => Raise e
  end.

(** [l[i]] for [i >= 0]. *)
Definition py_index {A} (l : list A) (i : nat) : result A :=
  match l !! i with
  | Some v => Ok v
  | None => Raise IndexError
  end.

(** ** xyz_add_gen_msite.py *)

Module AddGenMsite.
Section WithFloat.
Context {F : PyFloat}.

(** One entry of [definitions]. *)
Record defn := Defn {
  mol_type : string;
  atom_names : list string;
  msite_name : string;
  coefficients : list num
}.

(** One entry of [atoms]. *)
Record atom := Atom {
  name : string;
  x : num;
  y : num;
  z : num;
  line_index : nat
}.

(** [get_molecule_id(line)]: the last token of a line of 8 tokens or more. *)
Definition get_molecule_id (line : string) : option string :=
  let parts := split line in
  if 8 <=? length parts then last parts else None.

(** [is_atom_line(line)]. *)
Definition is_atom_line (line : string) : bool :=
  let parts := split line in
  if length parts <? 4 then false
  else match parts !! 1 ≫= parse_float,
             parts !! 2 ≫= parse_float,
             parts !! 3 ≫= parse_float with
       | Some _, Some _, Some _ => true
       | _, _, _ => false
       end.

(** The increment [d[k] = d.get(k, 0) + 1] of a counter dictionary. *)
Definition bump (k : string) (d : gmap string nat) : gmap string nat :=
  <[k := default 0 (d !! k) + 1]> d.

(** [needed_counts]. *)
Definition needed_counts (pattern : list string) : gmap string nat :=
  foldl (fun d k => bump k d) ∅ pattern.

(** [pattern_occurrences], from the counter [seen_counts]. *)
Fixpoint occurrences_go (seen_counts : gmap string nat) (pattern : list string)
  : list (string * nat) :=
  match pattern with
  | [] => []
  | k :: pattern' =>
      let seen' := bump k seen_counts in
      (k, default 0 (seen' !! k)) :: occurrences_go seen' pattern'
  end.

Definition pattern_occurrences (pattern : list string) : list (string * nat) :=
  occurrences_go ∅ pattern.

(** The inner [for i, (pattern_name, needed_occurrence) in enumerate(...)]
    with its [break]; [i] is the index of the head of [occs]. *)
Fixpoint bind_slot (occs : list (string * nat)) (i : nat)
    (nm : string) (current_occurrence : nat) (a : atom)
    (found_atoms : list (option atom)) : list (option atom) :=
  match occs with
  | [] => found_atoms
  | (pattern_name, needed_occurrence) :: occs' =>
      if decide (pattern_name = nm /\ needed_occurrence = current_occurrence)
      then match found_atoms !! i with
           | Some None => <[i := Some a]> found_atoms
           | _ => found_atoms
           end
      else bind_slot occs' (S i) nm current_occurrence a found_atoms
  end.

(** The loop [for atom in atoms]. *)
Fixpoint scan_atoms (needed : gmap string nat) (occs : list (string * nat))
    (atoms : list atom) (atom_counts : gmap string nat)
    (found_atoms : list (option atom)) : list (option atom) :=
  match atoms with
  | [] => found_atoms
  | a :: atoms' =>
      match needed !! name a with
      | Some _ =>
          let atom_counts' := bump (name a) atom_counts in
          let current_occurrence := default 0 (atom_counts' !! name a) in
          scan_atoms needed occs atoms' atom_counts'
            (bind_slot occs 0 (name a) current_occurrence a found_atoms)
      | None => scan_atoms needed occs atoms' atom_counts found_atoms
      end
  end.

(** [found_atoms] when the loop is over. *)
Definition found_slots (atoms : list atom) (pattern : list string)
  : list (option atom) :=
  scan_atoms (needed_counts pattern) (pattern_occurrences pattern) atoms ∅
    (replicate (length pattern) None).

(** [find_pattern_in_molecule(atoms, pattern)]: the bound atoms when every
    slot is bound, [None] otherwise. *)
Definition find_pattern_in_molecule (atoms : list atom) (pattern : list string)
  : option (list atom) :=
  mapM id (found_slots atoms pattern).

(** The atoms of a molecule: one for each atom line, with its index. *)
Definition read_atom (i : nat) (line : string) : option atom :=
  if is_atom_line line then
    match split line with
    | n :: sx :: sy :: sz :: _ =>
        match parse_float sx, parse_float sy, parse_float sz with
        | Some vx, Some vy, Some vz => Some (Atom n vx vy vz i)
        | _, _, _ => None
        end
    | _ => None
    end
  else None.

Fixpoint read_atoms (i : nat) (mol_lines : list string) : list atom :=
  match mol_lines with
  | [] => []
  | line :: rest =>
      match read_atom i line with
      | Some a => a :: read_atoms (S i) rest
      | None => read_atoms (S i) rest
      end
  end.

(** The products [coefficients[i] * v] for [i, v in enumerate(vals)]. *)
Fixpoint products (coeffs : list num) (i : nat) (vals : list num)
  : result (list num) :=
  match vals with
  | [] => Ok []
  | v :: vals' =>
      c ← py_index coeffs i;
      ps ← products coeffs (S i) vals';
      Ok (fmul c v :: ps)
  end.

Definition weighted_sum (coeffs : list num) (vals : list num) : result num :=
  ps ← products coeffs 0 vals; Ok (fsum ps).

(** The text common to both shapes of the M-site line. *)
Definition msite_head (site : string) (mx my mz : num) : string :=
  ljust 8 site +:+ " " +:+ format_11_7f mx +:+ " " +:+ format_11_7f my
  +:+ " " +:+ format_11_7f mz.

Definition zero_forces : string :=
  "     0.0000000     0.0000000     0.0000000     ".

(** The body of [if pattern_atoms:], for one definition: the pair
    appended to [insertions]. *)
Definition make_insertion (mol_lines : list string) (d : defn)
    (pattern_atoms : list atom) : result (nat * string) :=
  mx ← weighted_sum (coefficients d) (map x pattern_atoms);
  my ← weighted_sum (coefficients d) (map y pattern_atoms);
  mz ← weighted_sum (coefficients d) (map z pattern_atoms);
  last_pattern_atom ← py_index pattern_atoms (length pattern_atoms - 1);
  last_pattern_atom_line ← py_index mol_lines (line_index last_pattern_atom);
  let parts := split last_pattern_atom_line in
  msite_line ←
    (if 8 <=? length parts then
       p7 ← py_index parts 7;
       p8 ← py_index parts 8;
       Ok (msite_head (msite_name d) mx my mz +:+ zero_forces
           +:+ p7 +:+ "     " +:+ p8 +:+ nl)
     else Ok (msite_head (msite_name d) mx my mz +:+ nl));
  Ok (line_index last_pattern_atom + 1, msite_line).

(** The loop [for defn in definitions]. *)
Fixpoint collect_insertions (mol_lines : list string) (atoms : list atom)
    (definitions : list defn) : result (list (nat * string)) :=
  match definitions with
  | [] => Ok []
  | d :: definitions' =>
      match find_pattern_in_molecule atoms (atom_names d) with
      | Some (a :: pattern_atoms) =>
          ins ← make_insertion mol_lines d (a :: pattern_atoms);
          insertions ← collect_insertions mol_lines atoms definitions';
          Ok (ins :: insertions)
      | _ => collect_insertions mol_lines atoms definitions'
      end
  end.

(** The loop [for index, line in reversed(insertions)]. *)
Definition apply_insertions (insertions : list (nat * string))
    (output_lines : list string) : list string :=
  foldl (fun out il => list_insert_at il.1 il.2 out) output_lines
    (rev insertions).

(** [process_molecule(mol_lines, definitions)]. *)
Definition process_molecule (mol_lines : list string) (definitions : list defn)
  : result (list string) :=
  insertions ← collect_insertions mol_lines (read_atoms 0 mol_lines) definitions;
  Ok (apply_insertions insertions mol_lines).

(** What a run leaves: the strings written to standard output, the
    diagnostics printed to standard error, and the exception that ended
    the run, if one did. *)
Record run := Run {
  stdout : list string;
  stderr : list string;
  uncaught : option exn
}.

(** Process and write the pending molecule, then go on with [k]. *)
Definition flush (definitions : list defn) (current_mol_lines : list string)
    (k : list string * option exn) : list string * option exn :=
  match current_mol_lines with
  | [] => k
  | _ =>
      match process_molecule current_mol_lines definitions with
      | Ok output_lines => (output_lines ++ k.1, k.2)
      | Raise e => ([], Some e)
      end
  end.

(** The loop [for line in f] and the flush that follows it. *)
Fixpoint main_loop (definitions : list defn) (input : list string)
    (current_mol_id : option string) (current_mol_lines : list string)
    (header_mode : bool) : list string * option exn :=
  match input with
  | [] => flush definitions current_mol_lines ([], None)
  | line :: input' =>
      let mol_id := get_molecule_id line in
      let header_mode :=
        if header_mode && bool_decide (mol_id <> None) then false
        else header_mode in
      if header_mode then
        let k := main_loop definitions input' current_mol_id
                   current_mol_lines header_mode in
        (line :: k.1, k.2)
      else if decide (mol_id = current_mol_id) then
        main_loop definitions input' current_mol_id
          (current_mol_lines ++ [line]) header_mode
      else
        flush definitions current_mol_lines
          match mol_id with
          | Some _ =>
              main_loop definitions input' mol_id [line] header_mode
          | None =>
              let k := main_loop definitions input' None [] header_mode in
              (line :: k.1, k.2)
          end
  end.

Definition no_definitions_warning : string :=
  ln "Warning: No M-site definitions found".

(** [main()] once the definitions are parsed and the input is open. *)
Definition main (definitions : list defn) (input : list string) : run :=
  let k := main_loop definitions input None [] true in
  Run k.1
      (match definitions with [] => [no_definitions_warning] | _ => [] end)
      k.2.

End WithFloat.
End AddGenMsite.

(** ** Floats that are integers

    On floats whose value is an integer of small magnitude (below 2^53)
    the float operations are exact: a token that [int()] reads is read by
    [float()] with the same value, products and sums are the integer
    ones, and [%11.7f] prints the integer, seven zeros after the point,
    right-justified in 11 columns.  The model is evaluated on such
    inputs with this instance. *)

Definition rjust (w : nat) (s : string) : string :=
  spaces (w - String.length s) +:+ s.

Definition format_int_11_7f (v : Z) : string :=
  rjust 11 ((if (v <? 0)%Z then "-" else "")
            +:+ str_of_nat (Z.abs_nat v) +:+ ".0000000").

Definition IntFloat : PyFloat := {|
  num := Z;
  parse_float := py_int;
  fmul := Z.mul;
  fsum := foldl Z.add 0%Z;
  format_11_7f := format_int_11_7f
|}.

(** ** The definition file of xyz_add_gen_msite.py *)

Module MsiteDefinitions.
Import AddGenMsite.
Section WithFloat.
Context {F : PyFloat}.

(** [line.startswith('#')]. *)
Definition starts_with_hash (line : string) : bool :=
  match line with
  | String c _ => Ascii.eqb c "#"%char
  | EmptyString => false
  end.

(** The list [lines]: the stripped text of the lines of the file that
    are not blank and do not start with [#]. *)
Definition kept_lines (f : list string) : list string :=
  strip <$> filter (fun line => strip line <> "" /\ starts_with_hash line = false) f.

(** [print(f"Warning: {what} for {mol_type}", file=sys.stderr)]. *)
Definition warning (what mol_type : string) : string :=
  ln ("Warning: " +:+ what +:+ " for " +:+ mol_type).

(** One pass of the [while] loop over a block of three lines: the
    definition appended, or the warning printed. *)
Definition parse_block (mol_type pattern_line coeff_line : string)
  : defn + string :=
  let pattern_parts := split pattern_line in
  let coeff_parts := split coeff_line in
  if length pattern_parts <? 2
  then inr (warning "Invalid pattern line" mol_type)
  else
    let atom_names := take (length pattern_parts - 1) pattern_parts in
    let msite_name := default "" (last pattern_parts) in
    match mapM parse_float coeff_parts with
    | None => inr (warning "Invalid coefficients" mol_type)
    | Some coefficients =>
        if negb (length coefficients =? length atom_names)
        then inr (warning "Coefficient count mismatch" mol_type)
        else inl (Defn mol_type atom_names msite_name coefficients)
    end.

(** The loop [while i < len(lines)], three lines at a time; it stops
    when fewer than three lines are left.  The result is [definitions]
    and the warnings printed. *)
Fixpoint parse_blocks (lines : list string) : list defn * list string :=
  match lines with
  | mol_type :: pattern_line :: coeff_line :: rest =>
      let r := parse_blocks rest in
      match parse_block mol_type pattern_line coeff_line with
      | inl d => (d :: r.1, r.2)
      | inr w => (r.1, w :: r.2)
      end
  | _ => ([], [])
  end.

(** [parse_msite_definitions(def_file)], on the lines of the file. *)
Definition parse_msite_definitions (f : list string)
  : list defn * list string :=
  parse_blocks (kept_lines f).

(** [main()] from the parsing of the definition file on. *)
Definition main_with_file (def_file input : list string) : run :=
  let parsed := parse_msite_definitions def_file in
  let r := main parsed.1 input in
  Run (stdout r) (parsed.2 ++ stderr r) (uncaught r).

End WithFloat.
End MsiteDefinitions.

(** ** Usage/04_gen_ref.py: the atom names to select *)

Module GenRef.

(** [get_pxyz_atoms()] and [get_mm_atoms()], on the lines of the file
    each one opens: [[line.split()[0] for line in f if line.strip()]]. *)
Fixpoint first_tokens (f : list string) : result (list string) :=
  match f with
  | [] => Ok []
  | line :: rest =>
      if decide (strip line <> "")
      then prefix ← py_index (split line) 0;
           prefixes ← first_tokens rest;
           Ok (prefix :: prefixes)
      else first_tokens rest
  end.

Definition get_pxyz_atoms (name_translation : list string)
  : result (list string) :=
  first_tokens name_translation.

Definition get_mm_atoms (charge_info : list string) : result (list string) :=
  first_tokens charge_info.

(** [remove_msite(qm_atoms, mm_atoms)].  The function returns
    [list(l1.union(l1 & l2))], the elements of a set in an order that the
    language leaves open; the model gives the set. *)
Definition remove_msite (qm_atoms mm_atoms : list string) : gset string :=
  let l1 : gset string := list_to_set qm_atoms in
  let l2 : gset string := list_to_set mm_atoms in
  l1 ∪ (l1 ∩ l2).

End GenRef.

(** * Notions used to state the properties *)

(** ** Frames in a text *)

Module FixLinenuSpec.
Import FixLinenu.

(** A frame as it stands in a text: count line, comment line, body. *)
Record src_frame := SrcFrame {
  src_count : string;
  src_comment : string;
  src_body : list string
}.

Definition frame_text (f : src_frame) : list string :=
  src_count f :: src_comment f :: src_body f.

(** The integer a count line declares. *)
Definition declared_count (line : string) : option Z :=
  match split (strip line) with
  | [tok] => py_int tok
  | _ => None
  end.

Definition no_count (ls : list string) : Prop :=
  Forall (fun l => is_line_count l = false) ls.

(** A frame that the reader takes as one frame: it opens with a count
    line and no body line is a count line. *)
Definition complete (f : src_frame) : Prop :=
  is_line_count (src_count f) = true /\ no_count (src_body f).

(** The same frame with its count line rewritten. *)
Definition renumber (f : src_frame) : src_frame :=
  SrcFrame (ln (str_of_nat (length (src_body f)))) (src_comment f) (src_body f).

(** What can stand after the last frame: nothing, or a lone count line. *)
Definition dangling (tail : list string) : Prop :=
  tail = [] \/ exists c, tail = [c] /\ is_line_count c = true.

(** The frames read from a text of complete frames that starts at line [i]. *)
Fixpoint frames_at (i : nat) (fs : list src_frame) : list frame :=
  match fs with
  | [] => []
  | f :: fs' =>
      Frame i (src_comment f) (src_body f) (length (src_body f))
      :: frames_at (i + 2 + length (src_body f)) fs'
  end.

Definition starts_clean (ls : list string) : Prop :=
  match ls with
  | [] => True
  | l :: _ => is_line_count l = true
  end.

(** The text of a line list that is frames only, each declaring its
    own body length. *)
Definition already_correct (input : list string) : Prop :=
  exists fs,
    input = flat_map frame_text fs
    /\ Forall complete fs
    /\ Forall (fun f => declared_count (src_count f)
                        = Some (Z.of_nat (length (src_body f)))) fs.

(** The count line is the plain decimal body length and a newline. *)
Definition canonical (f : src_frame) : Prop :=
  src_count f = ln (str_of_nat (length (src_body f))).

(** In the text [out], frame [f] stands at its index: a count line that
    declares the body length, the comment, the body, and then the next
    count line or the end of the text. *)
Definition stands_in (out : list string) (f : frame) : Prop :=
  exists cl,
    out !! count_line_index f = Some cl
    /\ declared_count cl = Some (Z.of_nat (length (lines f)))
    /\ out !! (count_line_index f + 1) = Some (comment f)
    /\ take (length (lines f)) (drop (count_line_index f + 2) out) = lines f
    /\ starts_clean (drop (count_line_index f + 2 + length (lines f)) out).

End FixLinenuSpec.

(** ** Occurrences, ranks and bindings *)

Module MatcherSpec.
Import AddGenMsite.
Section WithFloat.
Context {F : PyFloat}.

(** The atoms named [nm], each with its position in [atoms], in file order. *)
Definition occurrences (nm : string) (atoms : list atom) : list (nat * atom) :=
  filter (fun ia => name ia.2 = nm) (imap pair atoms).

(** The [k]-th atom named [nm], counting from 1. *)
Definition kth_occurrence (nm : string) (k : nat) (atoms : list atom)
  : option (nat * atom) :=
  match k with
  | O => None
  | S k' => occurrences nm atoms !! k'
  end.

(** How many times [nm] stands in [l]. *)
Definition count_name (nm : string) (l : list string) : nat :=
  length (filter (fun m => m = nm) l).

(** The occurrence rank slot [i] requires: its name's count among the
    slots up to and including [i]. *)
Definition slot_rank (pattern : list string) (i : nat) : nat :=
  match pattern !! i with
  | Some nm => count_name nm (take (S i) pattern)
  | None => O
  end.

(** The position and the atom that slot [i] is to be bound to. *)
Definition slot_binding (atoms : list atom) (pattern : list string) (i : nat)
  : option (nat * atom) :=
  pattern !! i ≫= fun nm => kth_occurrence nm (slot_rank pattern i) atoms.

(** The running occurrence count when the atom at position [p] is
    scanned: how many atoms up to and including it bear its name. *)
Definition running_count (atoms : list atom) (p : nat) : nat :=
  match atoms !! p with
  | Some a => length (occurrences (name a) (take (S p) atoms))
  | None => O
  end.

(** The loop invariant of [for atom in atoms], after the atoms [pre]:
    the counters count the atoms seen, and slot [i] holds the atom of its
    rank if [pre] has it. *)
Definition scan_inv (pattern : list string) (pre : list atom)
    (atom_counts : gmap string nat) (found : list (option atom)) : Prop :=
  (forall nm, nm ∈ pattern ->
     default 0 (atom_counts !! nm) = length (occurrences nm pre))
  /\ (forall i, found !! i
        = (fun nm => snd <$> kth_occurrence nm (slot_rank pattern i) pre)
          <$> pattern !! i).

(** Insertions listed by ascending index, from [base] on. *)
Fixpoint ascending (base : nat) (insertions : list (nat * string)) : Prop :=
  match insertions with
  | [] => True
  | il :: rest => base <= il.1 /\ ascending il.1 rest
  end.

(** Each inserted line put at its index in the original list [out] (of
    which the first [base] lines are already passed); lines of one index
    keep the order of the list. *)
Fixpoint splice (base : nat) (insertions : list (nat * string))
    (out : list string) : list string :=
  match insertions with
  | [] => out
  | il :: rest =>
      take (il.1 - base) out ++ il.2 :: splice il.1 rest (drop (il.1 - base) out)
  end.

(** The coefficient-weighted terms [coefficients[i] * v_i]. *)
Definition weighted_terms (coeffs vals : list num) : list num :=
  zip_with fmul coeffs vals.

(** A line that reads as an atom record: a name, three coordinates that
    [float()] accepts, and the fields that follow. *)
Definition atom_record (line nm : string) (vx vy vz : num)
    (trailing : list string) : Prop :=
  exists sx sy sz,
    split line = nm :: sx :: sy :: sz :: trailing
    /\ parse_float sx = Some vx /\ parse_float sy = Some vy
    /\ parse_float sz = Some vz.

End WithFloat.
End MatcherSpec.

(** * Properties *)

(** ** Evaluations of the primitives *)

Example split_ex1 :
  split "  C1   0.5 1.0	2.0
" = ["C1"; "0.5"; "1.0"; "2.0"].
Proof. reflexivity. Qed.

Example py_int_ex1 : py_int "1_000" = Some 1000%Z /\ py_int "+07" = Some 7%Z
  /\ py_int "-3" = Some (-3)%Z /\ py_int "3_" = None /\ py_int "1__0" = None
  /\ py_int "" = None /\ py_int "+" = None /\ py_int "1.0" = None.
Proof. repeat split; reflexivity. Qed.

Example str_of_nat_ex : str_of_nat 0 = "0" /\ str_of_nat 120 = "120".
Proof. split; reflexivity. Qed.

Example ljust_ex : ljust 8 "EM" = "EM      " /\ ljust 8 "LONGNAME9" = "LONGNAME9".
Proof. split; reflexivity. Qed.

Example fix_linenu_ex1 :
  FixLinenu.main [ln "junk"; ln "  5"; ln "frame 1"; ln "A 0 0 0"; ln "B 1 1 1";
                  ln "7"; ln "frame 2"; ln "12"]
  = [ln "2"; ln "frame 1"; ln "A 0 0 0"; ln "B 1 1 1"; ln "0"; ln "frame 2"].
Proof. reflexivity. Qed.

(** ** Properties of the string primitives *)

Section StrFacts.

Lemma list_ascii_app (s t : string) :
  list_ascii_of_string (s +:+ t)
  = list_ascii_of_string s ++ list_ascii_of_string t.
Proof. induction s as [|c s IH]; simpl; [done|]. by rewrite IH. Qed.

Lemma is_digit_not_space c : is_digit c = true -> is_space c = false.
Proof.
  unfold is_digit, is_space. intros H.
  apply andb_true_iff in H as [H1 H2].
  apply Nat.leb_le in H1, H2.
  repeat (apply orb_false_iff; split);
    try (apply andb_false_iff);
    try (apply Nat.eqb_neq; lia).
  - right. apply Nat.leb_gt. lia.
  - right. apply Nat.leb_gt. lia.
Qed.

Lemma is_digit_not_sign c :
  is_digit c = true ->
  Ascii.eqb c "-"%char = false /\ Ascii.eqb c "+"%char = false.
Proof.
  intros H. split; apply Ascii.eqb_neq; intros ->; discriminate H.
Qed.

(** A run of non-space characters is one token. *)
Lemma split_go_token cur ds :
  Forall (fun c => is_space c = false) ds ->
  cur ++ ds <> [] ->
  split_go cur ds = [rev cur ++ ds].
Proof.
  revert cur. induction ds as [|d ds IH]; intros cur Hall Hne; simpl.
  - rewrite app_nil_r in *. destruct cur; [done|reflexivity].
  - inversion Hall as [|? ? Hd Hds]; subst. rewrite Hd.
    rewrite IH; [|done|by destruct cur].
    simpl. by rewrite <- app_assoc.
Qed.

Lemma lstrip_go_nonspace ds :
  Forall (fun c => is_space c = false) ds -> lstrip_go ds = ds.
Proof.
  destruct ds as [|d ds]; [done|].
  intros H. inversion H as [|? ? Hd _]; subst. simpl. by rewrite Hd.
Qed.

(** Stripping a token followed by a newline gives the token back. *)
Lemma strip_token_nl ds :
  Forall (fun c => is_space c = false) ds ->
  rev (lstrip_go (rev (lstrip_go (ds ++ [ascii_of_nat 10])))) = ds.
Proof.
  intros Hall.
  destruct ds as [|d ds]; [done|].
  assert (Hd : is_space d = false) by (by inversion Hall).
  replace (lstrip_go ((d :: ds) ++ [ascii_of_nat 10]))
    with ((d :: ds) ++ [ascii_of_nat 10]) by (simpl; by rewrite Hd).
  rewrite rev_app_distr.
  change (rev [ascii_of_nat 10] ++ rev (d :: ds))
    with (ascii_of_nat 10 :: rev (d :: ds)).
  change (lstrip_go (ascii_of_nat 10 :: rev (d :: ds)))
    with (lstrip_go (rev (d :: ds))).
  rewrite lstrip_go_nonspace; [apply rev_involutive|].
  by apply Forall_rev.
Qed.

Lemma int_digits_all_digits acc b ds :
  Forall (fun c => is_digit c = true) ds ->
  (ds <> [] \/ b = true) ->
  exists v, int_digits acc b ds = Some v.
Proof.
  revert acc b. induction ds as [|d ds IH]; intros acc b Hall Hne; simpl.
  - destruct Hne as [Hne|Hb]; [done|]. subst b. eauto.
  - inversion Hall as [|? ? Hd Hds]; subst. rewrite Hd.
    apply IH; [done|by right].
Qed.

Lemma uint_digits (d : Decimal.uint) :
  Forall (fun c => is_digit c = true)
    (list_ascii_of_string (NilEmpty.string_of_uint d)).
Proof. induction d; simpl; constructor; done. Qed.

Lemma str_of_nat_digits n :
  Forall (fun c => is_digit c = true) (list_ascii_of_string (str_of_nat n))
  /\ list_ascii_of_string (str_of_nat n) <> [].
Proof.
  unfold str_of_nat, NilZero.string_of_uint.
  destruct (Nat.to_uint n) eqn:E.
  1: split; [by repeat constructor|done].
  all: split; [rewrite <- E; apply uint_digits | done].
Qed.

End StrFacts.

(** ** The line-count normaliser *)

Module FixLinenuFacts.
Import FixLinenu FixLinenuSpec.

Lemma declared_count_is_line_count line :
  is_line_count line = true <-> is_Some (declared_count line).
Proof.
  unfold is_line_count, declared_count.
  destruct (split (strip line)) as [|tok [|? ?]];
    [| destruct (py_int tok) |];
    (split; intros H; try done; try (by eexists); by destruct H).
Qed.

Lemma int_digits_uint (a : nat) (b : bool) (d : Decimal.uint) :
  (d <> Decimal.Nil \/ b = true) ->
  int_digits (Z.of_nat a) b (list_ascii_of_string (NilEmpty.string_of_uint d))
  = Some (Z.of_nat (Nat.of_uint_acc d a)).
Proof.
  revert a b. induction d as [|d IH|d IH|d IH|d IH|d IH|d IH|d IH|d IH|d IH|d IH];
    intros a b Hne.
  { destruct Hne as [Hne|Hb]; [done|]. by subst b. }
  all: simpl list_ascii_of_string; simpl int_digits; simpl Nat.of_uint_acc;
    rewrite Nat.tail_mul_spec;
    match goal with
    | |- int_digits ?z true _ = Some (Z.of_nat (Nat.of_uint_acc _ ?n)) =>
        replace z with (Z.of_nat n)
          by (unfold digit_val;
              match goal with
              | |- context [nat_of_ascii ?c] =>
                  let v := eval vm_compute in (nat_of_ascii c) in
                  change (nat_of_ascii c) with v
              end; lia)
    end;
    apply IH; by right.
Qed.

Lemma py_int_unsigned s :
  Forall (fun c => is_digit c = true) (list_ascii_of_string s) ->
  py_int s = int_digits 0 false (list_ascii_of_string s).
Proof.
  unfold py_int. destruct (list_ascii_of_string s) as [|c ds]; [done|].
  intros H. inversion H as [|? ? Hc _]; subst.
  destruct (is_digit_not_sign c Hc) as [-> ->]. done.
Qed.

Lemma py_int_str_of_nat n : py_int (str_of_nat n) = Some (Z.of_nat n).
Proof.
  rewrite py_int_unsigned by apply str_of_nat_digits.
  unfold str_of_nat, NilZero.string_of_uint.
  pose proof (DecimalNat.Unsigned.of_to n) as Hn. unfold Nat.of_uint in Hn.
  destruct (Nat.to_uint n) as [|d|d|d|d|d|d|d|d|d|d] eqn:E.
  { cbn in Hn. by subst n. }
  all: rewrite <- Hn at 1; apply (int_digits_uint 0 false); by left.
Qed.

Lemma count_line_canonical n :
  declared_count (ln (str_of_nat n)) = Some (Z.of_nat n).
Proof.
  unfold declared_count, strip, split, ln, nl.
  destruct (str_of_nat_digits n) as [Hd Hne].
  assert (Hs : Forall (fun c => is_space c = false)
                 (list_ascii_of_string (str_of_nat n))).
  { eapply Forall_impl; [exact Hd|]. apply is_digit_not_space. }
  rewrite list_ascii_app. simpl (list_ascii_of_string (String _ _)).
  rewrite strip_token_nl by done.
  rewrite list_ascii_of_string_of_list_ascii.
  rewrite split_go_token by done. simpl.
  rewrite string_of_list_ascii_of_string.
  apply py_int_str_of_nat.
Qed.

Lemma is_line_count_canonical n : is_line_count (ln (str_of_nat n)) = true.
Proof.
  apply declared_count_is_line_count. rewrite count_line_canonical. by eexists.
Qed.

Lemma collect_body_spec ls :
  ls = (collect_body ls).1 ++ (collect_body ls).2
  /\ no_count (collect_body ls).1 /\ starts_clean (collect_body ls).2.
Proof.
  induction ls as [|l ls (IH1 & IH2 & IH3)]; simpl.
  - repeat split. constructor.
  - destruct (is_line_count l) eqn:E; simpl.
    + repeat split; [constructor|done].
    + destruct (collect_body ls) as [b r]; simpl in *.
      repeat split; [by f_equal|by constructor|done].
Qed.

Lemma collect_body_app b r :
  no_count b -> starts_clean r -> collect_body (b ++ r) = (b, r).
Proof.
  intros Hb Hr. induction Hb as [|l b Hl Hb IH]; simpl.
  - destruct r as [|l r]; [done|]. simpl in *. by rewrite Hr.
  - by rewrite Hl, IH.
Qed.

Lemma read_frames_other i l rest :
  is_line_count l = false -> read_frames i (l :: rest) = read_frames (S i) rest.
Proof. intros H. simp read_frames. rewrite H. by simp read_frames. Qed.

Lemma read_frames_lone i l :
  is_line_count l = true -> read_frames i [l] = [].
Proof. intros H. simp read_frames. rewrite H. by simp read_frames. Qed.

Lemma read_frames_count i l c rest :
  is_line_count l = true ->
  read_frames i (l :: c :: rest)
  = Frame i c (collect_body rest).1 (length (collect_body rest).1)
    :: read_frames (i + 2 + length (collect_body rest).1) (collect_body rest).2.
Proof. intros H. simp read_frames. rewrite H. by simp read_frames. Qed.

Lemma read_frames_skip i pre rest :
  no_count pre -> read_frames i (pre ++ rest) = read_frames (i + length pre) rest.
Proof.
  intros Hpre. revert i. induction Hpre as [|l pre Hl Hpre IH]; intros i; simpl.
  - by rewrite Nat.add_0_r.
  - rewrite read_frames_other by done. rewrite IH. f_equal. lia.
Qed.

Lemma read_frames_dangling i tail : dangling tail -> read_frames i tail = [].
Proof.
  intros [->|(c & -> & Hc)]; [by simp read_frames|by apply read_frames_lone].
Qed.

Lemma starts_clean_text fs tail :
  Forall complete fs -> dangling tail ->
  starts_clean (flat_map frame_text fs ++ tail).
Proof.
  intros Hfs Ht. destruct Hfs as [|f fs [Hc _] _]; simpl; [|done].
  destruct Ht as [->|(c & -> & Hc)]; done.
Qed.

(** Reading a text made of complete frames finds exactly these frames. *)
Lemma read_frames_text i fs tail :
  Forall complete fs -> dangling tail ->
  read_frames i (flat_map frame_text fs ++ tail) = frames_at i fs.
Proof.
  intros Hfs Ht. revert i.
  induction Hfs as [|f fs [Hc Hb] Hfs IH]; intros i; simpl.
  - by apply read_frames_dangling.
  - rewrite read_frames_count by done.
    rewrite <- app_assoc.
    rewrite collect_body_app; [|done|by apply starts_clean_text].
    simpl. by rewrite IH.
Qed.

Lemma write_frames_at i fs :
  flat_map write_frame (frames_at i fs) = flat_map frame_text (map renumber fs).
Proof.
  revert i. induction fs as [|f fs IH]; intros i; simpl; [done|].
  unfold write_frame at 1. simpl. by rewrite IH.
Qed.

Lemma renumber_complete f : complete f -> complete (renumber f).
Proof. intros [_ Hb]. split; [apply is_line_count_canonical|done]. Qed.

(** Every input is some lines without a count line, then complete
    frames, then possibly a lone count line; the reader finds the frames. *)
Lemma read_frames_decompose i input :
  exists pre fs tail,
    input = pre ++ flat_map frame_text fs ++ tail
    /\ no_count pre /\ Forall complete fs /\ dangling tail
    /\ read_frames i input = frames_at (i + length pre) fs.
Proof.
  remember (length input) as n eqn:En. revert input En i.
  induction n as [n IH] using lt_wf_ind. intros input En i.
  destruct input as [|l rest].
  { exists [], [], [].
    split_and!; [done|constructor|constructor|by left|by simp read_frames]. }
  destruct (is_line_count l) eqn:El.
  - destruct rest as [|c rest].
    + exists [], [], [l].
      split_and!; [done|constructor|constructor| |by apply read_frames_lone].
      right. by exists l.
    + destruct (collect_body_spec rest) as (Hsplit & Hb & Hclean).
      pose proof (collect_body_length rest) as Hlen.
      destruct (IH (length (collect_body rest).2) ltac:(subst n; simpl; lia)
                  (collect_body rest).2 eq_refl
                  (i + 2 + length (collect_body rest).1))
        as (pre & fs & tail & Hin & Hpre & Hfs & Ht & Hread).
      assert (pre = []) as ->.
      { destruct pre as [|p pre]; [done|]. exfalso.
        rewrite Hin in Hclean. simpl in Hclean.
        inversion Hpre as [|? ? Hp _]; subst. congruence. }
      simpl in Hin, Hread.
      exists [], (SrcFrame l c (collect_body rest).1 :: fs), tail.
      split_and!; try done.
      * simpl. rewrite <- app_assoc.
        rewrite <- Hin. by rewrite <- Hsplit.
      * by constructor.
      * rewrite read_frames_count by done. simpl.
        rewrite Hread, !Nat.add_0_r. done.
  - destruct (IH (length rest) ltac:(subst n; simpl; lia) rest eq_refl (S i))
      as (pre & fs & tail & Hin & Hpre & Hfs & Ht & Hread).
    exists (l :: pre), fs, tail. split_and!; try done.
    + simpl. by rewrite Hin.
    + by constructor.
    + rewrite read_frames_other by done. rewrite Hread. simpl.
      f_equal. lia.
Qed.

Lemma renumber_canonical f : canonical f -> renumber f = f.
Proof. destruct f as [cl c b]. unfold canonical, renumber. simpl. by intros ->. Qed.

Lemma map_renumber_canonical fs :
  Forall canonical fs -> map renumber fs = fs.
Proof.
  induction 1 as [|f fs Hf _ IH]; simpl; [done|].
  by rewrite renumber_canonical, IH.
Qed.

Lemma main_text pre fs tail :
  no_count pre -> Forall complete fs -> dangling tail ->
  main (pre ++ flat_map frame_text fs ++ tail)
  = flat_map frame_text (map renumber fs).
Proof.
  intros Hpre Hfs Ht. unfold main.
  rewrite read_frames_skip by done.
  rewrite read_frames_text by done.
  apply write_frames_at.
Qed.

Lemma frames_at_parts i fs :
  map (fun f => (comment f, lines f)) (frames_at i fs)
  = map (fun f => (src_comment f, src_body f)) fs.
Proof.
  revert i. induction fs as [|f fs IH]; intros i; simpl; [done|].
  by rewrite IH.
Qed.

Lemma frames_at_counts i fs :
  Forall (fun f => actual_count f = length (lines f)) (frames_at i fs).
Proof.
  revert i. induction fs as [|f fs IH]; intros i; simpl; constructor; auto.
Qed.

Lemma frames_at_stand pre fs :
  Forall complete fs ->
  Forall (fun f => declared_count (src_count f)
                   = Some (Z.of_nat (length (src_body f)))) fs ->
  Forall (stands_in (pre ++ flat_map frame_text fs)) (frames_at (length pre) fs).
Proof.
  intros Hfs. revert pre.
  induction Hfs as [|f fs [Hc Hb] Hfs IH]; intros pre Hd; simpl; [constructor|].
  inversion Hd as [|? ? Hdf Hds]; subst.
  constructor.
  - exists (src_count f). unfold frame_text at 1. simpl. split_and!.
    + by rewrite lookup_app_r, Nat.sub_diag by lia.
    + done.
    + rewrite lookup_app_r by lia.
      by replace (length pre + 1 - length pre) with 1 by lia.
    + rewrite drop_app_ge by lia.
      replace (length pre + 2 - length pre) with 2 by lia. simpl.
      by rewrite drop_0, take_app_length.
    + rewrite drop_app_ge by lia.
      replace (length pre + 2 + length (src_body f) - length pre)
        with (2 + length (src_body f)) by lia.
      simpl. rewrite ?drop_0, drop_app_length.
      pose proof (starts_clean_text fs [] Hfs (or_introl eq_refl)) as H.
      by rewrite app_nil_r in H.
  - specialize (IH (pre ++ frame_text f) Hds).
    rewrite <- app_assoc in IH.
    replace (length (pre ++ frame_text f))
      with (length pre + 2 + length (src_body f)) in IH.
    2:{ rewrite length_app. unfold frame_text. simpl. lia. }
    exact IH.
Qed.

End FixLinenuFacts.

(** ** The pattern matcher *)

Module MatcherFacts.
Import AddGenMsite MatcherSpec.
Section WithFloat.
Context {F : PyFloat}.

Lemma bump_lookup k k' (d : gmap string nat) :
  default 0 (bump k d !! k')
  = if decide (k = k') then default 0 (d !! k) + 1 else default 0 (d !! k').
Proof.
  unfold bump. case_decide as H.
  - subst. by rewrite lookup_insert_eq.
  - by rewrite lookup_insert_ne.
Qed.

Lemma foldl_bump_dom (pattern : list string) (d : gmap string nat) nm :
  is_Some (foldl (fun d k => bump k d) d pattern !! nm)
  <-> nm ∈ pattern \/ is_Some (d !! nm).
Proof.
  revert d. induction pattern as [|k pattern IH]; intros d; simpl.
  - split; [by right|]. intros [H|H]; [by apply elem_of_nil in H|done].
  - rewrite IH. unfold bump. rewrite elem_of_cons.
    destruct (decide (k = nm)) as [->|Hne].
    + rewrite lookup_insert_eq. split; [intros _; by left; left|].
      intros _. right. by eexists.
    + rewrite lookup_insert_ne by done.
      split; [intros [H|H]; [by left; right|by right]|].
      intros [[H|H]|H]; [done|by left|by right].
Qed.

Lemma needed_counts_dom pattern nm :
  is_Some (needed_counts pattern !! nm) <-> nm ∈ pattern.
Proof.
  unfold needed_counts. rewrite foldl_bump_dom, lookup_empty.
  split; [intros [H|[? H]]; done|by left].
Qed.

Lemma count_name_cons nm k l :
  count_name nm (k :: l)
  = (if decide (k = nm) then 1 else 0) + count_name nm l.
Proof.
  unfold count_name. rewrite filter_cons. by case_decide.
Qed.

Lemma occurrences_go_lookup (seen : gmap string nat) pattern i :
  occurrences_go seen pattern !! i
  = (fun nm => (nm, default 0 (seen !! nm) + count_name nm (take (S i) pattern)))
    <$> pattern !! i.
Proof.
  revert seen i. induction pattern as [|k pattern IH]; intros seen i.
  - done.
  - destruct i as [|i].
    + simpl. rewrite bump_lookup, decide_True by done.
      rewrite take_0, count_name_cons, decide_True by done. done.
    + simpl occurrences_go. rewrite !lookup_cons. rewrite IH.
      destruct (pattern !! i) as [nm|] eqn:E; [|done]. simpl.
      rewrite bump_lookup, count_name_cons.
      f_equal. f_equal. case_decide; [subst k|]; lia.
Qed.

Lemma pattern_occurrences_lookup pattern i :
  pattern_occurrences pattern !! i
  = (fun nm => (nm, slot_rank pattern i)) <$> pattern !! i.
Proof.
  unfold pattern_occurrences, slot_rank. rewrite occurrences_go_lookup.
  destruct (pattern !! i); [|done]. simpl. by rewrite lookup_empty.
Qed.

Lemma count_name_take_le nm (l : list string) i j :
  i <= j -> count_name nm (take i l) <= count_name nm (take j l).
Proof.
  intros Hij. unfold count_name.
  rewrite <- (take_drop i (take j l)).
  rewrite take_take, Nat.min_l by done.
  rewrite filter_app, length_app. lia.
Qed.

Lemma slot_rank_lt pattern i j nm :
  pattern !! i = Some nm -> pattern !! j = Some nm -> i < j ->
  slot_rank pattern i < slot_rank pattern j.
Proof.
  intros Hi Hj Hlt. unfold slot_rank. rewrite Hi, Hj.
  rewrite (take_S_r pattern j nm) by done.
  unfold count_name at 2. rewrite filter_app, length_app.
  rewrite filter_cons, decide_True by done. simpl.
  pose proof (count_name_take_le nm pattern (S i) j ltac:(lia)) as H.
  unfold count_name in *. lia.
Qed.

Lemma slot_rank_inj pattern i j nm :
  pattern !! i = Some nm -> pattern !! j = Some nm ->
  slot_rank pattern i = slot_rank pattern j -> i = j.
Proof.
  intros Hi Hj Heq.
  destruct (Nat.lt_trichotomy i j) as [H|[H|H]]; [|done|].
  - pose proof (slot_rank_lt pattern i j nm Hi Hj H). lia.
  - pose proof (slot_rank_lt pattern j i nm Hj Hi H). lia.
Qed.

Lemma slot_rank_pos pattern i nm :
  pattern !! i = Some nm -> 0 < slot_rank pattern i.
Proof.
  intros Hi. unfold slot_rank. rewrite Hi.
  rewrite (take_S_r pattern i nm) by done.
  unfold count_name. rewrite filter_app, length_app.
  rewrite filter_cons, decide_True by done. simpl. lia.
Qed.

Lemma pattern_occurrences_NoDup pattern : NoDup (pattern_occurrences pattern).
Proof.
  apply NoDup_alt. intros i j [nm k].
  rewrite !pattern_occurrences_lookup.
  destruct (pattern !! i) as [ni|] eqn:Ei; [|done].
  destruct (pattern !! j) as [nj|] eqn:Ej; [|done].
  simpl. intros [= -> <-] [= -> Hk].
  by eapply slot_rank_inj.
Qed.

Lemma occurrences_snoc nm pre a :
  occurrences nm (pre ++ [a])
  = occurrences nm pre
    ++ (if decide (name a = nm) then [(length pre, a)] else []).
Proof.
  unfold occurrences. rewrite imap_app, filter_app. f_equal.
  simpl. rewrite Nat.add_0_r, filter_cons, filter_nil. simpl.
  by case_decide.
Qed.

Lemma kth_occurrence_snoc nm k pre a :
  kth_occurrence nm k (pre ++ [a])
  = if decide (name a = nm /\ k = S (length (occurrences nm pre)))
    then Some (length pre, a)
    else kth_occurrence nm k pre.
Proof.
  unfold kth_occurrence. destruct k as [|k].
  { case_decide as H; [by destruct H|done]. }
  rewrite occurrences_snoc.
  destruct (decide (name a = nm)) as [Hn|Hn].
  - destruct (decide (k = length (occurrences nm pre))) as [->|Hk].
    + rewrite decide_True by done.
      by rewrite lookup_app_r, Nat.sub_diag by lia.
    + rewrite decide_False by (intros [_ [=]]; done).
      destruct (decide (k < length (occurrences nm pre))).
      * by rewrite lookup_app_l by done.
      * rewrite !lookup_ge_None_2; [done|lia|].
        rewrite length_app. simpl. lia.
  - rewrite decide_False by (by intros [? _]).
    by rewrite app_nil_r.
Qed.

(** What one pass of the inner loop leaves in slot [j]. *)
Lemma bind_slot_lookup occs off nm cur a (found : list (option atom)) j :
  NoDup occs ->
  bind_slot occs off nm cur a found !! j
  = match found !! j with
    | Some None =>
        if decide (off <= j /\ occs !! (j - off) = Some (nm, cur))
        then Some (Some a) else Some None
    | o => o
    end.
Proof.
  intros Hnd. revert off.
  induction Hnd as [|[pn no] occs Hnotin Hnd IH]; intros off; simpl.
  { destruct (found !! j) as [[b|]|]; try done.
    rewrite decide_False; [done|]. by intros (_ & ?). }
  destruct (decide (pn = nm /\ no = cur)) as [[-> ->]|Hne].
  - destruct (decide (j = off)) as [->|Hj].
    + rewrite Nat.sub_diag. simpl.
      destruct (found !! off) as [[b|]|] eqn:E; rewrite ?E; try done.
      rewrite decide_True by done.
      apply list_lookup_insert_eq. by eapply lookup_lt_Some.
    + assert (Hno : ~ (off <= j /\ ((nm, cur) :: occs) !! (j - off)
                                    = Some (nm, cur))).
      { intros (Hle & Hlook).
        destruct (j - off) as [|m] eqn:Em; [lia|]. simpl in Hlook.
        apply Hnotin. by eapply list_elem_of_lookup_2. }
      destruct (found !! off) as [[b|]|]; rewrite ?list_lookup_insert_ne by done;
        (destruct (found !! j) as [[c|]|]; try done; by rewrite decide_False).
  - rewrite IH.
    destruct (found !! j) as [[c|]|]; try done.
    destruct (decide (S off <= j)) as [Hle|Hle].
    + replace (j - off) with (S (j - S off)) by lia. simpl.
      destruct (decide (S off <= j /\ occs !! (j - S off) = Some (nm, cur)))
        as [H|H].
      * rewrite decide_True; [done|]. destruct H as (_ & ?). split; [lia|done].
      * rewrite decide_False; [done|]. intros (_ & ?). apply H. done.
    + rewrite decide_False by (intros (? & _); lia).
      rewrite decide_False; [done|]. intros (Hle' & Hlook).
      assert (j = off) as -> by lia.
      rewrite Nat.sub_diag in Hlook. simpl in Hlook.
      apply Hne. by inversion Hlook.
Qed.

Lemma scan_inv_step pattern pre a atom_counts found :
  scan_inv pattern pre atom_counts found ->
  name a ∈ pattern ->
  scan_inv pattern (pre ++ [a]) (bump (name a) atom_counts)
    (bind_slot (pattern_occurrences pattern) 0 (name a)
       (default 0 (bump (name a) atom_counts !! name a)) a found).
Proof.
  intros [Hc Hf] Hin. split.
  - intros nm Hnm. rewrite bump_lookup, occurrences_snoc, length_app.
    destruct (decide (name a = nm)) as [<-|H]; rewrite Hc by done; simpl; lia.
  - intros i.
    rewrite bind_slot_lookup by apply pattern_occurrences_NoDup.
    rewrite Nat.sub_0_r, pattern_occurrences_lookup, Hf.
    rewrite bump_lookup. rewrite (decide_True _ _ eq_refl). rewrite (Hc _ Hin).
    destruct (pattern !! i) as [nm|] eqn:Ei; simpl; [|done].
    rewrite kth_occurrence_snoc.
    destruct (decide (name a = nm
                      /\ slot_rank pattern i = S (length (occurrences nm pre))))
      as [[<- Hk]|Hno].
    + assert (Hnone : kth_occurrence (name a) (slot_rank pattern i) pre = None).
      { rewrite Hk. unfold kth_occurrence. by rewrite lookup_ge_None_2. }
      rewrite Hnone. simpl. rewrite decide_True; [done|].
      split; [lia|]. f_equal. f_equal. lia.
    + destruct (kth_occurrence nm (slot_rank pattern i) pre) as [[p b]|];
        simpl; [done|].
      rewrite decide_False; [done|].
      intros (_ & [= Hn Hk]). apply Hno. subst nm. split; [done|lia].
Qed.

Lemma scan_inv_skip pattern pre a atom_counts found :
  scan_inv pattern pre atom_counts found ->
  name a ∉ pattern ->
  scan_inv pattern (pre ++ [a]) atom_counts found.
Proof.
  intros [Hc Hf] Hnotin. split.
  - intros nm Hnm. rewrite occurrences_snoc, decide_False, app_nil_r.
    + by apply Hc.
    + intros <-. done.
  - intros i. rewrite Hf.
    destruct (pattern !! i) as [nm|] eqn:Ei; [|done]. simpl.
    rewrite kth_occurrence_snoc, decide_False; [done|].
    intros [<- _]. apply Hnotin. by eapply list_elem_of_lookup_2.
Qed.

Lemma scan_atoms_inv pattern pre atoms atom_counts found :
  scan_inv pattern pre atom_counts found ->
  exists atom_counts',
    scan_inv pattern (pre ++ atoms) atom_counts'
      (scan_atoms (needed_counts pattern) (pattern_occurrences pattern)
         atoms atom_counts found).
Proof.
  revert pre atom_counts found.
  induction atoms as [|a atoms IH]; intros pre atom_counts found Hinv; simpl.
  - rewrite app_nil_r. by exists atom_counts.
  - replace (pre ++ a :: atoms) with ((pre ++ [a]) ++ atoms)
      by (by rewrite <- app_assoc).
    destruct (needed_counts pattern !! name a) as [c|] eqn:E.
    + apply IH. apply scan_inv_step; [done|].
      apply needed_counts_dom. by eexists.
    + apply IH. apply scan_inv_skip; [done|].
      intros Hin. apply needed_counts_dom in Hin as [? Hin]. congruence.
Qed.

(** Slot [i] of [found_atoms] after the scan: the atom of the slot's name
    and rank, when the molecule has it. *)
Lemma found_slots_lookup atoms pattern i :
  found_slots atoms pattern !! i
  = (fun _ => snd <$> slot_binding atoms pattern i) <$> pattern !! i.
Proof.
  unfold found_slots.
  destruct (scan_atoms_inv pattern [] atoms ∅ (replicate (length pattern) None))
    as (c & _ & Hf).
  - split.
    + intros nm _. by rewrite lookup_empty.
    + intros j. destruct (pattern !! j) as [nm|] eqn:Ej; simpl.
      * rewrite lookup_replicate_2 by (by eapply lookup_lt_Some).
        unfold kth_occurrence. by destruct (slot_rank pattern j).
      * apply lookup_ge_None_2. rewrite length_replicate.
        by apply lookup_ge_None_1.
  - simpl in Hf. rewrite Hf. unfold slot_binding.
    by destruct (pattern !! i).
Qed.

Lemma found_slots_length atoms pattern :
  length (found_slots atoms pattern) = length pattern.
Proof.
  apply Nat.le_antisymm.
  - apply Nat.nlt_ge. intros Hlt.
    destruct (lookup_lt_is_Some_2 (found_slots atoms pattern) (length pattern))
      as [v Hv]; [lia|].
    rewrite found_slots_lookup in Hv.
    by rewrite lookup_ge_None_2 in Hv by lia.
  - apply Nat.nlt_ge. intros Hlt.
    destruct (lookup_lt_is_Some_2 pattern (length (found_slots atoms pattern)))
      as [v Hv]; [lia|].
    pose proof (found_slots_lookup atoms pattern
                  (length (found_slots atoms pattern))) as H.
    rewrite Hv in H. simpl in H.
    by rewrite lookup_ge_None_2 in H by lia.
Qed.

Lemma occurrences_elem nm atoms k p a :
  occurrences nm atoms !! k = Some (p, a) ->
  atoms !! p = Some a /\ name a = nm.
Proof.
  intros H. apply list_elem_of_lookup_2 in H.
  unfold occurrences in H. apply list_elem_of_filter in H as [Hn H].
  apply elem_of_lookup_imap_1 in H as (i & b & [= -> ->] & Hl). done.
Qed.

Lemma occurrences_NoDup nm atoms : NoDup (occurrences nm atoms).
Proof.
  unfold occurrences. apply NoDup_filter.
  apply NoDup_alt. intros i j [q b] Hi Hj.
  rewrite list_lookup_imap in Hi, Hj.
  destruct (atoms !! i) eqn:Ei; [|done].
  destruct (atoms !! j) eqn:Ej; [|done].
  simpl in *. congruence.
Qed.

Lemma occurrences_lookup nm atoms k p a :
  occurrences nm atoms !! k = Some (p, a)
  <-> atoms !! p = Some a /\ name a = nm
      /\ length (occurrences nm (take (S p) atoms)) = S k.
Proof.
  revert k p a. induction atoms as [|x pre IH] using rev_ind; intros k p a.
  { split; [done|]. by intros [? _]. }
  rewrite occurrences_snoc.
  destruct (decide (p < length pre)) as [Hp|Hp].
  - rewrite (lookup_app_l pre) by done. rewrite take_app_le by lia.
    rewrite <- IH. split.
    + intros H. apply lookup_app_Some in H as [H|[Hk H]]; [done|].
      exfalso. case_decide; [|done].
      destruct (k - length (occurrences nm pre)); [|done].
      simpl in H. injection H as Hq _. lia.
    + intros H. by apply lookup_app_l_Some.
  - destruct (decide (p = length pre)) as [->|Hne].
    + rewrite (lookup_app_r pre), Nat.sub_diag by lia. simpl.
      rewrite take_ge by (rewrite length_app; simpl; lia).
      rewrite occurrences_snoc, length_app.
      split.
      * intros H. apply lookup_app_Some in H as [H|[Hk H]].
        { apply occurrences_elem in H as [H _].
          apply lookup_lt_Some in H. lia. }
        case_decide as Hn; [|done].
        destruct (k - length (occurrences nm pre)) eqn:Ek; [|done].
        simpl in H. injection H as <-.
        split_and!; [done|done|]. simpl. lia.
      * intros ([= <-] & Hn & Hlen).
        rewrite decide_True in * by done. simpl in Hlen.
        rewrite lookup_app_r by lia.
        replace (k - length (occurrences nm pre)) with 0 by lia. done.
    + split.
      * intros H. exfalso.
        apply lookup_app_Some in H as [H|[Hk H]].
        { apply occurrences_elem in H as [H _].
          apply lookup_lt_Some in H. lia. }
        case_decide; [|done].
        destruct (k - length (occurrences nm pre)); [|done].
        simpl in H. injection H as Hq _. lia.
      * intros (H & _). apply lookup_lt_Some in H.
        rewrite length_app in H. simpl in H. lia.
Qed.

(** Slot [i] is bound to the atom at [p] exactly when that atom bears the
    slot's name and is scanned with the running count the slot requires. *)
Lemma slot_binding_spec atoms pattern i p a :
  slot_binding atoms pattern i = Some (p, a)
  <-> exists nm, pattern !! i = Some nm /\ atoms !! p = Some a /\ name a = nm
                 /\ running_count atoms p = slot_rank pattern i.
Proof.
  unfold slot_binding, running_count.
  destruct (pattern !! i) as [nm|] eqn:Ei; simpl.
  2:{ split; [done|]. by intros (? & ? & _). }
  pose proof (slot_rank_pos pattern i nm Ei) as Hpos.
  unfold kth_occurrence.
  destruct (slot_rank pattern i) as [|k] eqn:Ek; [lia|].
  rewrite occurrences_lookup. split.
  - intros (Ha & Hn & Hlen). exists nm. rewrite Ha. subst nm. done.
  - intros (nm' & [= <-] & Ha & Hn & Hlen). rewrite Ha in Hlen. subst nm. done.
Qed.

(** Two slots are never bound to the same atom. *)
Lemma slot_binding_inj atoms pattern i j p a b :
  slot_binding atoms pattern i = Some (p, a) ->
  slot_binding atoms pattern j = Some (p, b) ->
  i = j.
Proof.
  intros Hi Hj.
  pose proof Hi as Hi'. pose proof Hj as Hj'.
  apply slot_binding_spec in Hi' as (ni & Ei & Ha & Hna & Hri).
  apply slot_binding_spec in Hj' as (nj & Ej & Hb & Hnb & Hrj).
  assert (a = b) as <- by congruence. subst ni nj.
  eapply slot_rank_inj; [exact Ei|exact Ej|congruence].
Qed.

Lemma found_slots_eq atoms pattern :
  found_slots atoms pattern
  = map (fun i => snd <$> slot_binding atoms pattern i)
      (seq 0 (length pattern)).
Proof.
  apply list_eq. intros i. rewrite found_slots_lookup, list_lookup_fmap.
  destruct (pattern !! i) as [nm|] eqn:Ei; simpl.
  - rewrite lookup_seq_lt by (by eapply lookup_lt_Some). done.
  - rewrite lookup_seq_ge; [done|]. by apply lookup_ge_None_1.
Qed.

Lemma mapM_id_fmap {A B} (f : A -> option B) (l : list A) :
  mapM id (map f l) = mapM f l.
Proof. induction l as [|v l IH]; simpl; [done|]. by rewrite IH. Qed.

(** The match as a whole: every slot bound, or nothing. *)
Lemma find_pattern_slots atoms pattern :
  find_pattern_in_molecule atoms pattern
  = mapM (fun i => snd <$> slot_binding atoms pattern i)
      (seq 0 (length pattern)).
Proof.
  unfold find_pattern_in_molecule. by rewrite found_slots_eq, mapM_id_fmap.
Qed.

(** A slot whose occurrence the molecule lacks makes the match fail. *)
Lemma find_pattern_missing atoms pattern i nm :
  pattern !! i = Some nm ->
  length (occurrences nm atoms) < slot_rank pattern i ->
  find_pattern_in_molecule atoms pattern = None.
Proof.
  intros Ei Hlt. rewrite find_pattern_slots. apply mapM_None.
  apply Exists_exists. exists i. split.
  - apply elem_of_seq. apply lookup_lt_Some in Ei. lia.
  - unfold slot_binding. rewrite Ei. simpl. unfold kth_occurrence.
    destruct (slot_rank pattern i) as [|k]; [done|].
    by rewrite lookup_ge_None_2 by lia.
Qed.

End WithFloat.
End MatcherFacts.

(** ** The site synthesiser *)

Module SynthFacts.
Import AddGenMsite MatcherSpec MatcherFacts.
Section WithFloat.
Context {F : PyFloat}.

Lemma result_bind_Ok {A B} (a : A) (k : A -> result B) : (Ok a ≫= k) = k a.
Proof. done. Qed.

Lemma py_index_Some {A} (l : list A) i v : l !! i = Some v -> py_index l i = Ok v.
Proof. unfold py_index. by intros ->. Qed.

Lemma products_terms coeffs i vals :
  i + length vals <= length coeffs ->
  products coeffs i vals = Ok (weighted_terms (drop i coeffs) vals).
Proof.
  revert i. induction vals as [|v vals IH]; intros i Hlen; simpl.
  - unfold weighted_terms. by destruct (drop i coeffs).
  - simpl in Hlen. unfold py_index.
    destruct (coeffs !! i) as [c|] eqn:Ec.
    2:{ apply lookup_ge_None_1 in Ec. lia. }
    simpl. rewrite IH by lia. simpl.
    rewrite (drop_S coeffs c i Ec). done.
Qed.

Lemma weighted_sum_terms coeffs vals :
  length vals <= length coeffs ->
  weighted_sum coeffs vals = Ok (fsum (weighted_terms coeffs vals)).
Proof.
  intros Hlen. unfold weighted_sum.
  rewrite products_terms by (simpl; lia). simpl. by rewrite drop_0.
Qed.

Lemma read_atoms_elem i mol_lines a :
  a ∈ read_atoms i mol_lines ->
  i <= line_index a
  /\ exists line, mol_lines !! (line_index a - i) = Some line
                  /\ read_atom (line_index a) line = Some a.
Proof.
  revert i. induction mol_lines as [|l mol_lines IH]; intros i; simpl.
  { intros H. by apply elem_of_nil in H. }
  intros H.
  assert (Hrest : a ∈ read_atoms (S i) mol_lines ->
            i <= line_index a
            /\ exists line, (l :: mol_lines) !! (line_index a - i) = Some line
                            /\ read_atom (line_index a) line = Some a).
  { intros Hin. apply IH in Hin as (Hle & line & Hl & Hr).
    split; [lia|]. exists line. split; [|done].
    replace (line_index a - i) with (S (line_index a - S i)) by lia. done. }
  destruct (read_atom i l) as [b|] eqn:Eb; [|by apply Hrest].
  apply elem_of_cons in H as [->|H]; [|by apply Hrest].
  assert (line_index b = i) as Hi.
  { unfold read_atom in Eb. destruct (is_atom_line l); [|done].
    destruct (split l) as [|? [|? [|? [|? ?]]]]; try done.
    repeat case_match; try done. by injection Eb as <-. }
  split; [lia|]. exists l. rewrite Hi, Nat.sub_diag. done.
Qed.

Lemma read_atoms_line mol_lines a :
  a ∈ read_atoms 0 mol_lines ->
  exists line, mol_lines !! line_index a = Some line
               /\ read_atom (line_index a) line = Some a.
Proof.
  intros H. apply read_atoms_elem in H as (_ & line & Hl & Hr).
  rewrite Nat.sub_0_r in Hl. eauto.
Qed.

(** The atom read from a line bears the line's first four tokens. *)
Lemma read_atom_tokens i line a :
  read_atom i line = Some a ->
  split line !! 0 = Some (name a)
  /\ split line !! 1 ≫= parse_float = Some (x a)
  /\ split line !! 2 ≫= parse_float = Some (y a)
  /\ split line !! 3 ≫= parse_float = Some (z a)
  /\ line_index a = i.
Proof.
  unfold read_atom. destruct (is_atom_line line); [|done].
  destruct (split line) as [|n [|sx [|sy [|sz ?]]]]; try done.
  simpl.
  destruct (parse_float sx), (parse_float sy), (parse_float sz); try done.
  by intros [= <-].
Qed.

(** The bound atoms: one per slot, each an atom of the molecule. *)
Lemma find_pattern_bound atoms pattern bound :
  find_pattern_in_molecule atoms pattern = Some bound ->
  length bound = length pattern
  /\ forall i a, bound !! i = Some a ->
       exists p, slot_binding atoms pattern i = Some (p, a).
Proof.
  rewrite find_pattern_slots. intros H.
  pose proof (length_mapM _ _ _ H) as Hlen. rewrite length_seq in Hlen.
  split; [done|].
  apply mapM_Some_1 in H. intros i a Ha.
  destruct (Forall2_lookup_r _ _ _ _ _ H Ha) as (j & Hj & Hb).
  apply lookup_seq in Hj as [-> _]. simpl in Hb.
  destruct (slot_binding atoms pattern i) as [[p b]|]; [|done].
  simpl in Hb. injection Hb as ->. by exists p.
Qed.

Lemma find_pattern_bound_elem atoms pattern bound a :
  find_pattern_in_molecule atoms pattern = Some bound ->
  a ∈ bound -> a ∈ atoms.
Proof.
  intros H Ha. apply find_pattern_bound in H as [_ H].
  apply list_elem_of_lookup in Ha as [i Hi].
  destruct (H i a Hi) as [p Hp].
  apply slot_binding_spec in Hp as (nm & _ & Hat & _).
  by eapply list_elem_of_lookup_2.
Qed.

(** A definition that does not match leaves no insertion. *)
Lemma collect_insertions_unmatched mol_lines atoms defs1 d defs2 :
  find_pattern_in_molecule atoms (atom_names d) = None ->
  collect_insertions mol_lines atoms (defs1 ++ d :: defs2)
  = collect_insertions mol_lines atoms (defs1 ++ defs2).
Proof.
  intros Hd. induction defs1 as [|e defs1 IH]; simpl.
  - by rewrite Hd.
  - by rewrite IH.
Qed.

Lemma apply_insertions_cons il insertions out :
  apply_insertions (il :: insertions) out
  = list_insert_at il.1 il.2 (apply_insertions insertions out).
Proof. unfold apply_insertions. simpl. by rewrite foldl_app. Qed.

Lemma ascending_weaken base base' insertions :
  base' <= base -> ascending base insertions -> ascending base' insertions.
Proof. destruct insertions; simpl; [done|]. intros ? [? ?]. split; [lia|done]. Qed.

Lemma splice_shift base i insertions out :
  base <= i -> ascending i insertions ->
  splice base insertions out
  = take (i - base) out ++ splice i insertions (drop (i - base) out).
Proof.
  intros Hbase Hasc. destruct insertions as [|[j l] rest]; simpl in *.
  - by rewrite take_drop.
  - destruct Hasc as [Hij _].
    rewrite app_assoc, take_take_drop, drop_drop.
    by replace (i - base + (j - i)) with (j - base) by lia.
Qed.

(** When the definitions yield their insertions by ascending index, the
    reversed loop puts every line at its index in the original list. *)
Lemma apply_insertions_ascending insertions out :
  ascending 0 insertions ->
  Forall (fun il => il.1 <= length out) insertions ->
  apply_insertions insertions out = splice 0 insertions out.
Proof.
  induction insertions as [|[i l] rest IH]; intros Hasc Hin; [done|].
  simpl in Hasc. destruct Hasc as [_ Hasc].
  inversion Hin as [|? ? Hi Hrest]; subst. simpl in Hi.
  rewrite apply_insertions_cons. simpl.
  rewrite IH by (done || by eapply ascending_weaken; [|exact Hasc]; lia).
  rewrite (splice_shift 0 i) by (done || lia).
  rewrite !Nat.sub_0_r. unfold list_insert_at.
  rewrite take_app_length', drop_app_length'; try done.
  all: rewrite length_take; lia.
Qed.

(** The M-site line, by the number of tokens of the template line. *)
Lemma make_insertion_spec mol_lines d bound last_atom template :
  length (coefficients d) = length bound ->
  last bound = Some last_atom ->
  mol_lines !! line_index last_atom = Some template ->
  let mx := fsum (weighted_terms (coefficients d) (map x bound)) in
  let my := fsum (weighted_terms (coefficients d) (map y bound)) in
  let mz := fsum (weighted_terms (coefficients d) (map z bound)) in
  make_insertion mol_lines d bound
  = if 8 <=? length (split template) then
      match split template !! 7, split template !! 8 with
      | Some p7, Some p8 =>
          Ok (line_index last_atom + 1,
              msite_head (msite_name d) mx my mz +:+ zero_forces
              +:+ p7 +:+ "     " +:+ p8 +:+ nl)
      | _, _ => Raise IndexError
      end
    else Ok (line_index last_atom + 1,
             msite_head (msite_name d) mx my mz +:+ nl).
Proof.
  intros Hlen Hlast Htpl mx my mz. unfold make_insertion.
  assert (Hl : bound !! (length bound - 1) = Some last_atom).
  { rewrite <- Hlast, last_lookup. f_equal. lia. }
  rewrite !weighted_sum_terms by (rewrite length_map; lia).
  rewrite !result_bind_Ok.
  rewrite (py_index_Some _ _ _ Hl), result_bind_Ok.
  rewrite (py_index_Some _ _ _ Htpl), result_bind_Ok.
  fold mx my mz.
  destruct (8 <=? length (split template)); [|done].
  unfold py_index.
  destruct (split template !! 7); [|done]. rewrite result_bind_Ok.
  destruct (split template !! 8); done.
Qed.

End WithFloat.
End SynthFacts.

(** * The claims *)

(** ** Claims on the line-count normaliser *)

Section NormaliserClaims.
Import FixLinenu FixLinenuSpec FixLinenuFacts.

(** C5. For every input, each frame's count is the number of body lines
    collected for it, the output is the frames in the order read, each
    written as its count, its comment and its body lines; and in the
    output, read again, every frame keeps its comment and body and stands
    under a count line that declares the number of body lines that
    follow its comment up to the next count line or the end. *)
Theorem normalised_counts_match_bodies (input : list string) :
  let frames := read_frames 0 input in
  let out := FixLinenu.main input in
  Forall (fun f => actual_count f = length (lines f)) frames
  /\ out = flat_map (fun f => ln (str_of_nat (length (lines f)))
                              :: comment f :: lines f) frames
  /\ map (fun f => (comment f, lines f)) (read_frames 0 out)
     = map (fun f => (comment f, lines f)) frames
  /\ Forall (stands_in out) (read_frames 0 out).
Proof.
  intros frames out. subst frames out.
  destruct (read_frames_decompose 0 input)
    as (pre & fs & tail & Hin & Hpre & Hfs & Ht & Hread).
  assert (Hout : FixLinenu.main input = flat_map frame_text (map renumber fs)).
  { rewrite Hin. by apply main_text. }
  assert (Hren : Forall complete (map renumber fs)).
  { apply Forall_map. eapply Forall_impl; [exact Hfs|]. apply renumber_complete. }
  assert (Hre : read_frames 0 (FixLinenu.main input)
                = frames_at 0 (map renumber fs)).
  { rewrite Hout.
    rewrite <- (app_nil_r (flat_map _ _)).
    apply read_frames_text; [done|by left]. }
  split_and!.
  - rewrite Hread. apply frames_at_counts.
  - unfold FixLinenu.main. rewrite Hread.
    clear. generalize (0 + length pre). induction fs as [|f fs IH]; intros i.
    + done.
    + simpl. unfold write_frame at 1. simpl. by rewrite IH.
  - rewrite Hre, Hread, !frames_at_parts, map_map. done.
  - rewrite Hre, Hout.
    apply (frames_at_stand [] (map renumber fs) Hren).
    apply Forall_map. apply Forall_forall. intros f _. simpl.
    apply count_line_canonical.
Qed.

(** C6, as stated, fails: a count line that declares the right number
    behind padding is rewritten, so the output differs from the input. *)
Lemma padded_count_line_is_rewritten :
  let input := [ln "   2"; ln "frame"; ln "A 0 0 0"; ln "B 1 1 1"] in
  already_correct input /\ FixLinenu.main input <> input.
Proof.
  split.
  - exists [SrcFrame (ln "   2") (ln "frame") [ln "A 0 0 0"; ln "B 1 1 1"]].
    split_and!; [reflexivity| |].
    + repeat constructor.
    + by repeat constructor.
  - vm_compute. discriminate.
Qed.

(** C6, amended. A text of complete frames whose count lines are the
    plain decimal body lengths comes out unchanged, and on every input
    normalising twice gives what normalising once gives. *)
Theorem normalise_canonical_noop (fs : list src_frame) (input : list string) :
  Forall complete fs -> Forall canonical fs ->
  FixLinenu.main (flat_map frame_text fs) = flat_map frame_text fs
  /\ FixLinenu.main (FixLinenu.main input) = FixLinenu.main input.
Proof.
  intros Hfs Hcan. split.
  - pose proof (main_text [] fs [] ltac:(constructor) Hfs (or_introl eq_refl))
      as H.
    simpl in H. rewrite app_nil_r in H. rewrite H.
    by rewrite map_renumber_canonical.
  - destruct (read_frames_decompose 0 input)
      as (pre & gs & tail & Hin & Hpre & Hgs & Ht & _).
    assert (Hout : FixLinenu.main input = flat_map frame_text (map renumber gs)).
    { rewrite Hin. by apply main_text. }
    rewrite Hout.
    assert (Hren : Forall complete (map renumber gs)).
    { apply Forall_map. eapply Forall_impl; [exact Hgs|].
      apply renumber_complete. }
    pose proof (main_text [] (map renumber gs) [] ltac:(constructor) Hren
                  (or_introl eq_refl)) as H.
    simpl in H. rewrite app_nil_r in H. rewrite H.
    f_equal. apply map_renumber_canonical.
    apply Forall_map. apply Forall_forall. by intros f _.
Qed.

Lemma normalise_canonical_noop_witness :
  let fs := [SrcFrame (ln "2") (ln "frame 1") [ln "A 0 0 0"; ln "B 1 1 1"];
             SrcFrame (ln "0") (ln "frame 2") []] in
  let input := [ln "junk"; ln " 1"; ln "c"; ln "x y"; ln "7"] in
  FixLinenu.main (flat_map frame_text fs) = flat_map frame_text fs
  /\ FixLinenu.main (FixLinenu.main input) = FixLinenu.main input.
Proof.
  intros fs input. apply (normalise_canonical_noop fs input).
  - repeat constructor.
  - repeat constructor.
Defined.

(** C10. Every input is lines without a count line, then complete
    frames, then nothing or one lone count line; the output is the
    frames alone, each with its count line rewritten: the lines before
    the first count line and a last count line that nothing follows are
    not written. *)
Theorem output_is_frames_only (input : list string) :
  exists pre fs tail,
    input = pre ++ flat_map frame_text fs ++ tail
    /\ no_count pre /\ Forall complete fs /\ dangling tail
    /\ FixLinenu.main input
       = flat_map (fun f => ln (str_of_nat (length (src_body f)))
                            :: src_comment f :: src_body f) fs
    /\ FixLinenu.main (flat_map frame_text fs) = FixLinenu.main input.
Proof.
  destruct (read_frames_decompose 0 input)
    as (pre & fs & tail & Hin & Hpre & Hfs & Ht & _).
  exists pre, fs, tail. split_and!; try done.
  - rewrite Hin, main_text by done.
    clear. induction fs as [|f fs IH]; simpl; [done|]. by rewrite IH.
  - pose proof (main_text [] fs [] ltac:(constructor) Hfs (or_introl eq_refl))
      as H.
    simpl in H. rewrite app_nil_r in H. rewrite H.
    rewrite Hin. symmetry. by apply main_text.
Qed.

End NormaliserClaims.

(** ** Claims on the pattern matcher *)

Section MatcherClaims.
Import AddGenMsite MatcherSpec MatcherFacts SynthFacts.
Context {F : PyFloat}.

(** C2. For every molecule group and pattern, after the scan slot [i]
    holds the atom that bears the slot's name and whose running
    occurrence count, in file order, is the rank the slot requires (its
    name's count among the slots up to it), and holds nothing if the
    group has no such atom; two slots never hold the same atom; and on
    atoms C1(a), H2, C1(b) the pattern C1 C1 binds slot 0 to C1(a) and
    slot 1 to C1(b). *)
Theorem matcher_binds_by_running_count
    (atoms : list atom) (pattern : list string) :
  found_slots atoms pattern
  = map (fun i => snd <$> slot_binding atoms pattern i) (seq 0 (length pattern))
  /\ find_pattern_in_molecule atoms pattern = mapM id (found_slots atoms pattern)
  /\ (forall i p a,
        slot_binding atoms pattern i = Some (p, a)
        <-> exists nm, pattern !! i = Some nm /\ atoms !! p = Some a
                       /\ name a = nm
                       /\ running_count atoms p = slot_rank pattern i)
  /\ (forall i j p a b,
        slot_binding atoms pattern i = Some (p, a) ->
        slot_binding atoms pattern j = Some (p, b) -> i = j)
  /\ (forall a h b,
        name a = "C1" -> name h = "H2" -> name b = "C1" ->
        found_slots [a; h; b] ["C1"; "C1"] = [Some a; Some b]
        /\ find_pattern_in_molecule [a; h; b] ["C1"; "C1"] = Some [a; b]).
Proof.
  split_and!.
  - apply found_slots_eq.
  - done.
  - apply slot_binding_spec.
  - apply slot_binding_inj.
  - intros [na xa ya za ia] [nh xh yh zh ih] [nb xb yb zb ib].
    simpl. intros -> -> ->. split; reflexivity.
Qed.

(** C4. If the group has fewer atoms of a slot's name than the rank the
    slot requires, the match fails as a whole; the definition leaves no
    record in the processed molecule, whatever the other definitions; the
    run prints no diagnostic; and the pattern C1 H2 C1 fails on a group
    C1, H2. *)
Theorem missing_occurrence_fails_whole_match
    (mol_lines : list string) (defs1 defs2 : list defn) (d : defn)
    (i : nat) (nm : string) (input : list string) :
  atom_names d !! i = Some nm ->
  length (occurrences nm (read_atoms 0 mol_lines)) < slot_rank (atom_names d) i ->
  find_pattern_in_molecule (read_atoms 0 mol_lines) (atom_names d) = None
  /\ process_molecule mol_lines (defs1 ++ d :: defs2)
     = process_molecule mol_lines (defs1 ++ defs2)
  /\ process_molecule mol_lines [d] = Ok mol_lines
  /\ stderr (main (defs1 ++ d :: defs2) input) = []
  /\ (forall a h, name a = "C1" -> name h = "H2" ->
        find_pattern_in_molecule [a; h] ["C1"; "H2"; "C1"] = None).
Proof.
  intros Hi Hlt.
  assert (Hnone : find_pattern_in_molecule (read_atoms 0 mol_lines)
                    (atom_names d) = None)
    by (by eapply find_pattern_missing).
  split_and!.
  - done.
  - unfold process_molecule. by rewrite collect_insertions_unmatched.
  - unfold process_molecule. simpl. by rewrite Hnone.
  - unfold main. simpl. by destruct defs1.
  - intros [na xa ya za ia] [nh xh yh zh ih]. simpl. intros -> ->. reflexivity.
Qed.

End MatcherClaims.

Section MatcherWitnesses.
Local Existing Instance IntFloat.

Lemma matcher_binds_by_running_count_witness :
  let a := @AddGenMsite.Atom IntFloat "C1" 1%Z 2%Z 3%Z 0 in
  let h := @AddGenMsite.Atom IntFloat "H2" 4%Z 5%Z 6%Z 1 in
  let b := @AddGenMsite.Atom IntFloat "C1" 7%Z 8%Z 9%Z 2 in
  AddGenMsite.find_pattern_in_molecule [a; h; b] ["C1"; "C1"] = Some [a; b].
Proof.
  intros a h b.
  destruct (@matcher_binds_by_running_count IntFloat [a; h; b] ["C1"; "C1"])
    as (_ & _ & _ & _ & H).
  apply (H a h b); reflexivity.
Defined.

Lemma missing_occurrence_fails_whole_match_witness :
  let d := @AddGenMsite.Defn IntFloat "DMA" ["C1"; "H2"; "C1"] "EM" [2; 2; 2]%Z in
  let mol := [ln "C1 1 2 3 0 0 0 1.0 7"; ln "H2 4 5 6 0 0 0 1.0 7"] in
  AddGenMsite.find_pattern_in_molecule (AddGenMsite.read_atoms 0 mol)
    (AddGenMsite.atom_names d) = None
  /\ AddGenMsite.process_molecule mol [d] = Ok mol.
Proof.
  intros d mol.
  destruct (@missing_occurrence_fails_whole_match IntFloat mol [] [] d 2 "C1" [])
    as (H1 & _ & H3 & _).
  - reflexivity.
  - vm_compute. lia.
  - split; [exact H1|exact H3].
Defined.

End MatcherWitnesses.

(** ** Claims on the site synthesiser *)

Section SynthClaims.
Import AddGenMsite MatcherSpec MatcherFacts SynthFacts.
Context {F : PyFloat}.

Lemma read_atom_record i line nm vx vy vz trailing :
  atom_record line nm vx vy vz trailing ->
  read_atom i line = Some (Atom nm vx vy vz i).
Proof.
  intros (sx & sy & sz & Hs & Hx & Hy & Hz).
  unfold read_atom, is_atom_line. rewrite Hs. simpl.
  by rewrite Hx, Hy, Hz.
Qed.

(** The last bound atom and the line it was read from. *)
Lemma last_bound_line mol_lines pattern bound :
  find_pattern_in_molecule (read_atoms 0 mol_lines) pattern = Some bound ->
  pattern <> [] ->
  exists last_atom template,
    last bound = Some last_atom
    /\ mol_lines !! line_index last_atom = Some template
    /\ read_atom (line_index last_atom) template = Some last_atom.
Proof.
  intros Hfind Hne.
  destruct (find_pattern_bound _ _ _ Hfind) as [Hlen _].
  destruct (last bound) as [last_atom|] eqn:El.
  2:{ apply last_None in El. subst bound. by destruct pattern. }
  assert (Hin : last_atom ∈ read_atoms 0 mol_lines).
  { eapply find_pattern_bound_elem; [exact Hfind|].
    apply last_Some in El as [l' ->]. apply elem_of_app. right. by left. }
  apply read_atoms_line in Hin as (line & Hl & Hr).
  by exists last_atom, line.
Qed.

(** The end-to-end case: C1 H2 C1 EM with any three coefficients, on a
    molecule C1, H2, C1 whose lines end in mass 1.0 and molecule id 7. *)
Lemma dma_end_to_end (l1 l2 l3 : string) (c1 c2 c3 : num)
    (x1 y1 z1 x2 y2 z2 x3 y3 z3 : num) (f1 f2 f3 : list string) :
  length f1 = 3 -> length f2 = 3 -> length f3 = 3 ->
  atom_record l1 "C1" x1 y1 z1 (f1 ++ ["1.0"; "7"]) ->
  atom_record l2 "H2" x2 y2 z2 (f2 ++ ["1.0"; "7"]) ->
  atom_record l3 "C1" x3 y3 z3 (f3 ++ ["1.0"; "7"]) ->
  process_molecule [l1; l2; l3]
    [Defn "DMA" ["C1"; "H2"; "C1"] "EM" [c1; c2; c3]]
  = Ok [l1; l2; l3;
        msite_head "EM"
          (fsum [fmul c1 x1; fmul c2 x2; fmul c3 x3])
          (fsum [fmul c1 y1; fmul c2 y2; fmul c3 y3])
          (fsum [fmul c1 z1; fmul c2 z2; fmul c3 z3])
        +:+ zero_forces +:+ "1.0" +:+ "     " +:+ "7" +:+ nl].
Proof.
  intros Hf1 Hf2 Hf3 H1 H2 H3.
  unfold process_molecule. simpl read_atoms.
  rewrite (read_atom_record 0 l1 _ _ _ _ _ H1).
  rewrite (read_atom_record 1 l2 _ _ _ _ _ H2).
  rewrite (read_atom_record 2 l3 _ _ _ _ _ H3).
  simpl collect_insertions.
  set (a1 := Atom "C1" x1 y1 z1 0).
  set (a2 := Atom "H2" x2 y2 z2 1).
  set (a3 := Atom "C1" x3 y3 z3 2).
  assert (Hfind : find_pattern_in_molecule [a1; a2; a3] ["C1"; "H2"; "C1"]
                  = Some [a1; a2; a3]) by reflexivity.
  rewrite Hfind.
  destruct H3 as (sx & sy & sz & Hs & _).
  destruct f3 as [|fa [|fb [|fc [|? ?]]]]; try done. simpl in Hs.
  rewrite (make_insertion_spec [l1; l2; l3] _ [a1; a2; a3] a3 l3);
    [|done|done|done].
  rewrite Hs. simpl. reflexivity.
Qed.

(** C3, amended. For every successful binding of a definition with as
    many coefficients as pattern atoms, whose last bound atom stands on a
    line of at least 9 tokens: the record's coordinates are the sums of
    the coefficient-weighted coordinates of the bound atoms, its three
    force fields are the zero text, its last two fields are the 8th and
    9th tokens (mass, molecule id) of the line of the last bound atom,
    and it goes to the index after that line; in particular for
    C1 H2 C1 EM on a molecule C1, H2, C1 of mass 1.0 and molecule id 7. *)
Theorem msite_record_from_last_bound_atom
    (mol_lines : list string) (d : defn) (bound : list atom) :
  find_pattern_in_molecule (read_atoms 0 mol_lines) (atom_names d) = Some bound ->
  atom_names d <> [] ->
  length (coefficients d) = length (atom_names d) ->
  (exists last_atom template,
     last bound = Some last_atom
     /\ mol_lines !! line_index last_atom = Some template
     /\ read_atom (line_index last_atom) template = Some last_atom
     /\ (9 <= length (split template) ->
         exists mass mol_id,
           split template !! 7 = Some mass
           /\ split template !! 8 = Some mol_id
           /\ make_insertion mol_lines d bound
              = Ok (line_index last_atom + 1,
                    msite_head (msite_name d)
                      (fsum (zip_with fmul (coefficients d) (map x bound)))
                      (fsum (zip_with fmul (coefficients d) (map y bound)))
                      (fsum (zip_with fmul (coefficients d) (map z bound)))
                    +:+ zero_forces +:+ mass +:+ "     " +:+ mol_id +:+ nl)))
  /\ (forall l1 l2 l3 c1 c2 c3 x1 y1 z1 x2 y2 z2 x3 y3 z3 f1 f2 f3,
        length f1 = 3 -> length f2 = 3 -> length f3 = 3 ->
        atom_record l1 "C1" x1 y1 z1 (f1 ++ ["1.0"; "7"]) ->
        atom_record l2 "H2" x2 y2 z2 (f2 ++ ["1.0"; "7"]) ->
        atom_record l3 "C1" x3 y3 z3 (f3 ++ ["1.0"; "7"]) ->
        process_molecule [l1; l2; l3]
          [Defn "DMA" ["C1"; "H2"; "C1"] "EM" [c1; c2; c3]]
        = Ok [l1; l2; l3;
              msite_head "EM"
                (fsum [fmul c1 x1; fmul c2 x2; fmul c3 x3])
                (fsum [fmul c1 y1; fmul c2 y2; fmul c3 y3])
                (fsum [fmul c1 z1; fmul c2 z2; fmul c3 z3])
              +:+ zero_forces +:+ "1.0" +:+ "     " +:+ "7" +:+ nl]).
Proof.
  intros Hfind Hne Hlen. split; [|apply dma_end_to_end].
  destruct (last_bound_line _ _ _ Hfind Hne)
    as (last_atom & template & Hlast & Htpl & Hread).
  exists last_atom, template. split_and!; try done.
  intros H9.
  destruct (lookup_lt_is_Some_2 (split template) 7 ltac:(lia)) as [mass Hm].
  destruct (lookup_lt_is_Some_2 (split template) 8 ltac:(lia)) as [mol_id Hi].
  exists mass, mol_id. split_and!; try done.
  destruct (find_pattern_bound _ _ _ Hfind) as [Hb _].
  rewrite (make_insertion_spec mol_lines d bound last_atom template)
    by (done || lia).
  rewrite Hm, Hi.
  destruct (8 <=? length (split template)) eqn:E; [done|].
  apply Nat.leb_gt in E. lia.
Qed.

(** C7, amended. For every successful binding whose last bound atom
    stands on a line of fewer than 8 tokens, the record is the site name
    and the three coordinates only and nothing fails; and no run prints
    a diagnostic for it: standard error holds the warning about an empty
    definition list or nothing. *)
Theorem short_template_degrades_silently
    (mol_lines : list string) (d : defn) (bound : list atom)
    (definitions : list defn) (input : list string) :
  find_pattern_in_molecule (read_atoms 0 mol_lines) (atom_names d) = Some bound ->
  atom_names d <> [] ->
  length (coefficients d) = length (atom_names d) ->
  (exists last_atom template,
     last bound = Some last_atom
     /\ mol_lines !! line_index last_atom = Some template
     /\ (length (split template) < 8 ->
         make_insertion mol_lines d bound
         = Ok (line_index last_atom + 1,
               msite_head (msite_name d)
                 (fsum (zip_with fmul (coefficients d) (map x bound)))
                 (fsum (zip_with fmul (coefficients d) (map y bound)))
                 (fsum (zip_with fmul (coefficients d) (map z bound)))
               +:+ nl)))
  /\ stderr (main definitions input)
     = match definitions with [] => [no_definitions_warning] | _ => [] end.
Proof.
  intros Hfind Hne Hlen. split; [|done].
  destruct (last_bound_line _ _ _ Hfind Hne)
    as (last_atom & template & Hlast & Htpl & _).
  exists last_atom, template. split_and!; try done.
  intros H8.
  destruct (find_pattern_bound _ _ _ Hfind) as [Hb _].
  rewrite (make_insertion_spec mol_lines d bound last_atom template)
    by (done || lia).
  destruct (8 <=? length (split template)) eqn:E; [|done].
  apply Nat.leb_le in E. lia.
Qed.

(** C9. Whenever the last bound atom stands on a line of exactly 8
    tokens (a line that carries a molecule id), building the record
    raises [IndexError]; and a run on such a molecule ends with that
    exception uncaught and nothing written. *)
Theorem eight_token_template_raises
    (mol_lines : list string) (d : defn) (bound : list atom)
    (last_atom : atom) (template : string) :
  last bound = Some last_atom ->
  mol_lines !! line_index last_atom = Some template ->
  length (split template) = 8 ->
  is_Some (get_molecule_id template)
  /\ split template !! 8 = None
  /\ make_insertion mol_lines d bound = Raise IndexError
  /\ (let input := [ln "A 1 0 0 0 0 0 7"] in
      let d := @Defn IntFloat "X" ["A"] "MA" [1%Z] in
      @get_molecule_id (ln "A 1 0 0 0 0 0 7") = Some "7"
      /\ @process_molecule IntFloat input [d] = Raise IndexError
      /\ @main IntFloat [d] input = Run [] [] (Some IndexError)).
Proof.
  intros Hlast Htpl H8. split_and!.
  - unfold get_molecule_id. rewrite H8. simpl.
    destruct (split template) as [|t ts] eqn:E using rev_ind; [done|].
    rewrite last_snoc. by eexists.
  - apply lookup_ge_None_2. lia.
  - unfold make_insertion.
    destruct (weighted_sum (coefficients d) (map x bound)) as [mx|[]];
      [|reflexivity].
    rewrite result_bind_Ok.
    destruct (weighted_sum (coefficients d) (map y bound)) as [my|[]];
      [|reflexivity].
    rewrite result_bind_Ok.
    destruct (weighted_sum (coefficients d) (map z bound)) as [mz|[]];
      [|reflexivity].
    rewrite result_bind_Ok.
    assert (Hl : bound !! (length bound - 1) = Some last_atom).
    { rewrite <- Hlast, last_lookup. f_equal. lia. }
    rewrite (py_index_Some _ _ _ Hl), result_bind_Ok.
    rewrite (py_index_Some _ _ _ Htpl), result_bind_Ok.
    rewrite H8. simpl (8 <=? 8).
    destruct (lookup_lt_is_Some_2 (split template) 7 ltac:(lia)) as [p7 H7].
    rewrite (py_index_Some _ _ _ H7), result_bind_Ok.
    unfold py_index. by rewrite lookup_ge_None_2 by lia.
  - simpl. split_and!; reflexivity.
Qed.

End SynthClaims.

(** ** Evaluations on concrete molecules *)

Section SynthEvaluations.
Import AddGenMsite MatcherSpec MatcherFacts SynthFacts.
Local Existing Instance IntFloat.

(** C3, as stated, fails: a binding whose last bound atom stands on a
    line of four tokens gives a record of four tokens, with no force,
    mass or molecule-id field. *)
Lemma short_template_has_no_trailing_fields :
  let d := @Defn IntFloat "X" ["A"] "MA" [1%Z] in
  let mol := [ln "A 4 5 6"] in
  exists bound line,
    find_pattern_in_molecule (read_atoms 0 mol) (atom_names d) = Some bound
    /\ make_insertion mol d bound = Ok (1, line)
    /\ split line = ["MA"; "4.0000000"; "5.0000000"; "6.0000000"].
Proof.
  simpl. eexists _, _. split_and!; reflexivity.
Qed.

Lemma msite_record_from_last_bound_atom_witness :
  let d := @Defn IntFloat "DMA" ["C1"; "H2"; "C1"] "EM" [2; 2; 2]%Z in
  let l1 := ln "C1 1 2 3 0 0 0 1.0 7" in
  let l2 := ln "H2 4 5 6 9 9 9 1.0 7" in
  let l3 := ln "C1 7 8 9 1 1 1 1.0 7" in
  process_molecule [l1; l2; l3] [d]
  = Ok [l1; l2; l3;
        ln "EM        24.0000000  30.0000000  36.0000000     0.0000000     0.0000000     0.0000000     1.0     7"].
Proof.
  intros d l1 l2 l3.
  pose proof (msite_record_from_last_bound_atom [l1; l2; l3] d
                [@Atom IntFloat "C1" 1%Z 2%Z 3%Z 0; @Atom IntFloat "H2" 4%Z 5%Z 6%Z 1;
                 @Atom IntFloat "C1" 7%Z 8%Z 9%Z 2]
                eq_refl ltac:(done) eq_refl) as [_ H].
  apply (H l1 l2 l3 2%Z 2%Z 2%Z 1%Z 2%Z 3%Z 4%Z 5%Z 6%Z 7%Z 8%Z 9%Z
           ["0"; "0"; "0"] ["9"; "9"; "9"] ["1"; "1"; "1"]);
    try reflexivity; by eexists _, _, _.
Defined.

(** C7, as stated, fails: the record of name and coordinates is written
    and nothing is printed to standard error. *)
Lemma short_template_prints_no_warning :
  let d := @Defn IntFloat "X" ["A"] "MA" [1%Z] in
  let input := [ln "A 1 0 0 0 0 0 1.0 7"; ln "A 1 2 3"; ln "A 4 5 6"] in
  length (split (ln "A 4 5 6")) = 4
  /\ process_molecule [ln "A 4 5 6"] [d]
     = Ok [ln "A 4 5 6"; ln "MA         4.0000000   5.0000000   6.0000000"]
  /\ main [d] input
     = Run [ln "A 1 0 0 0 0 0 1.0 7";
            ln "MA         1.0000000   0.0000000   0.0000000     0.0000000     0.0000000     0.0000000     1.0     7";
            ln "A 1 2 3"; ln "A 4 5 6";
            ln "MA         4.0000000   5.0000000   6.0000000"]
           [] None.
Proof. split_and!; reflexivity. Qed.

Lemma short_template_degrades_silently_witness :
  let d := @Defn IntFloat "X" ["A"] "MA" [1%Z] in
  make_insertion [ln "A 4 5 6"] d [@Atom IntFloat "A" 4%Z 5%Z 6%Z 0]
  = Ok (1, ln "MA         4.0000000   5.0000000   6.0000000").
Proof.
  intros d.
  destruct (short_template_degrades_silently [ln "A 4 5 6"] d
              [@Atom IntFloat "A" 4%Z 5%Z 6%Z 0] [d] [] eq_refl ltac:(done) eq_refl)
    as [(last_atom & template & Hlast & Htpl & H) _].
  injection Hlast as <-. injection Htpl as <-.
  apply H. vm_compute. lia.
Defined.

Lemma eight_token_template_raises_witness :
  let d := @Defn IntFloat "X" ["A"] "MA" [1%Z] in
  make_insertion [ln "A 1 0 0 0 0 0 7"] d [@Atom IntFloat "A" 1%Z 0%Z 0%Z 0]
  = Raise IndexError.
Proof.
  intros d.
  apply (eight_token_template_raises [ln "A 1 0 0 0 0 0 7"] d
           [@Atom IntFloat "A" 1%Z 0%Z 0%Z 0] (@Atom IntFloat "A" 1%Z 0%Z 0%Z 0)
           (ln "A 1 0 0 0 0 0 7") eq_refl eq_refl eq_refl).
Defined.

(** C1 on the code. With a definition bound to the last atom listed
    before one bound to the first atom, the insertions are applied in
    the reverse of the definition order, the lower index first: the record
    of the first definition lands before the line of its atom.  With
    the two definitions in the other order both records follow their
    atoms. *)
Theorem reversed_insertions_shift_index :
  let dD := @Defn IntFloat "X" ["D"] "MD" [1%Z] in
  let dA := @Defn IntFloat "X" ["A"] "MA" [1%Z] in
  let lA := ln "A 1 0 0 0 0 0 1.0 7" in
  let lB := ln "B 2 0 0 0 0 0 1.0 7" in
  let lC := ln "C 3 0 0 0 0 0 1.0 7" in
  let lD := ln "D 4 0 0 0 0 0 1.0 7" in
  let mA := ln "MA         1.0000000   0.0000000   0.0000000     0.0000000     0.0000000     0.0000000     1.0     7" in
  let mD := ln "MD         4.0000000   0.0000000   0.0000000     0.0000000     0.0000000     0.0000000     1.0     7" in
  collect_insertions [lA; lB; lC; lD] (read_atoms 0 [lA; lB; lC; lD]) [dD; dA]
  = Ok [(4, mD); (1, mA)]
  /\ process_molecule [lA; lB; lC; lD] [dD; dA] = Ok [lA; mA; lB; lC; mD; lD]
  /\ process_molecule [lA; lB; lC; lD] [dA; dD] = Ok [lA; mA; lB; lC; lD; mD].
Proof. split_and!; reflexivity. Qed.

(** C8 on the code. Of two consecutive lines without a molecule id, the
    first is written as it is, the second is kept as a group of its own
    and processed as a molecule: a definition that matches it adds a
    record after it. *)
Theorem second_idless_line_is_grouped :
  let d := @Defn IntFloat "X" ["A"] "MA" [1%Z] in
  let l1 := ln "A 1 0 0 0 0 0 1.0 7" in
  let m1 := ln "MA         1.0000000   0.0000000   0.0000000     0.0000000     0.0000000     0.0000000     1.0     7" in
  get_molecule_id (ln "A 1 2 3") = None
  /\ get_molecule_id (ln "A 4 5 6") = None
  /\ main [d] [l1; ln "A 1 2 3"; ln "A 4 5 6"]
     = Run [l1; m1; ln "A 1 2 3"; ln "A 4 5 6";
            ln "MA         4.0000000   5.0000000   6.0000000"]
           [] None
  /\ main [d] [l1; ln "A 1 2 3"]
     = Run [l1; m1; ln "A 1 2 3"] [] None.
Proof. split_and!; reflexivity. Qed.

End SynthEvaluations.

(** * Further properties of the two tools *)

(** ** Tokens and surrounding white space *)

Section TokenFacts.

Definition all_space (s : list ascii) : Prop :=
  Forall (fun c => is_space c = true) s.

Lemma split_go_spaces cur sp :
  all_space sp ->
  split_go cur sp = match cur with [] => [] | _ => [rev cur] end.
Proof.
  intros Hsp. revert cur. induction Hsp as [|c sp Hc Hsp IH]; intros cur.
  - done.
  - simpl. rewrite Hc. destruct cur; rewrite IH; done.
Qed.

Lemma split_go_app_spaces cur l sp :
  all_space sp -> split_go cur (l ++ sp) = split_go cur l.
Proof.
  intros Hsp. revert cur. induction l as [|c l IH]; intros cur; simpl.
  - by apply split_go_spaces.
  - destruct (is_space c); [destruct cur|]; by rewrite IH.
Qed.

Lemma split_go_spaces_app sp l :
  all_space sp -> split_go [] (sp ++ l) = split_go [] l.
Proof.
  induction 1 as [|c sp Hc Hsp IH]; simpl; [done|]. by rewrite Hc.
Qed.

Lemma lstrip_go_decompose l :
  exists sp, all_space sp /\ l = sp ++ lstrip_go l.
Proof.
  induction l as [|c l (sp & Hsp & IH)]; simpl.
  - exists []. split; [constructor|done].
  - destruct (is_space c) eqn:Ec.
    + exists (c :: sp). split; [by constructor|]. simpl. by rewrite <- IH.
    + exists []. split; [constructor|done].
Qed.

(** [s.strip().split()] gives the tokens of [s]. *)
Lemma split_strip s : split (strip s) = split s.
Proof.
  unfold split, strip. rewrite list_ascii_of_string_of_list_ascii. f_equal.
  set (l := list_ascii_of_string s).
  destruct (lstrip_go_decompose l) as (sp1 & Hsp1 & Hl).
  destruct (lstrip_go_decompose (rev (lstrip_go l))) as (sp2 & Hsp2 & Hr).
  apply (f_equal (@rev ascii)) in Hr.
  rewrite rev_involutive, rev_app_distr in Hr.
  rewrite Hl at 2. rewrite split_go_spaces_app by done.
  rewrite Hr at 2. rewrite split_go_app_spaces; [done|].
  by apply Forall_rev.
Qed.

Lemma split_pad sp1 sp2 s :
  all_space (list_ascii_of_string sp1) ->
  all_space (list_ascii_of_string sp2) ->
  split (sp1 +:+ s +:+ sp2) = split s.
Proof.
  intros H1 H2. unfold split. rewrite !list_ascii_app.
  by rewrite split_go_spaces_app, split_go_app_spaces.
Qed.

End TokenFacts.

(** ** More on the line-count normaliser *)

Module FixLinenuMore.
Import FixLinenu FixLinenuSpec FixLinenuFacts.

(** Where a frame stands in the input it was read from. *)
Definition read_from (input : list string) (f : frame) : Prop :=
  exists cl,
    input !! count_line_index f = Some cl
    /\ is_line_count cl = true
    /\ input !! (count_line_index f + 1) = Some (comment f)
    /\ take (length (lines f)) (drop (count_line_index f + 2) input) = lines f
    /\ no_count (lines f)
    /\ starts_clean (drop (count_line_index f + 2 + length (lines f)) input).

(** The lines from the count line of frame [f] to its last body line end
    before the count line of frame [g]. *)
Definition ends_before (f g : frame) : Prop :=
  count_line_index f + 2 + length (lines f) <= count_line_index g.

Lemma frames_at_read_from pre fs tail :
  Forall complete fs -> dangling tail ->
  Forall (read_from (pre ++ flat_map frame_text fs ++ tail))
    (frames_at (length pre) fs).
Proof.
  intros Hfs Ht. revert pre.
  induction Hfs as [|f fs [Hc Hb] Hfs IH]; intros pre; simpl; [constructor|].
  constructor.
  - exists (src_count f). unfold frame_text at 1. simpl. split_and!.
    + by rewrite lookup_app_r, Nat.sub_diag by lia.
    + done.
    + rewrite lookup_app_r by lia.
      by replace (length pre + 1 - length pre) with 1 by lia.
    + rewrite drop_app_ge by lia.
      replace (length pre + 2 - length pre) with 2 by lia. simpl.
      by rewrite drop_0, <- app_assoc, take_app_length.
    + done.
    + rewrite drop_app_ge by lia.
      replace (length pre + 2 + length (src_body f) - length pre)
        with (2 + length (src_body f)) by lia.
      simpl. rewrite <- app_assoc, drop_app_length.
      by apply starts_clean_text.
  - specialize (IH (pre ++ frame_text f)).
    rewrite <- !app_assoc in IH.
    replace (length (pre ++ frame_text f))
      with (length pre + 2 + length (src_body f)) in IH.
    2:{ rewrite length_app. unfold frame_text. simpl. lia. }
    rewrite <- app_assoc. exact IH.
Qed.

Lemma frames_at_from i fs :
  Forall (fun g => i <= count_line_index g) (frames_at i fs).
Proof.
  revert i. induction fs as [|f fs IH]; intros i; simpl; constructor.
  - simpl. lia.
  - eapply Forall_impl; [apply IH|]. simpl. intros g Hg. lia.
Qed.

Lemma frames_at_apart i fs j k f g :
  frames_at i fs !! j = Some f -> frames_at i fs !! k = Some g -> j < k ->
  ends_before f g.
Proof.
  revert i j k. induction fs as [|h fs IH]; intros i j k Hj Hk Hlt; [done|].
  simpl in Hj, Hk. destruct k as [|k]; [lia|]. simpl in Hk.
  destruct j as [|j].
  - simpl in Hj. injection Hj as <-. unfold ends_before. simpl.
    pose proof (frames_at_from (i + 2 + length (src_body h)) fs) as Hall.
    rewrite Forall_forall in Hall.
    apply (Hall g). by eapply list_elem_of_lookup_2.
  - simpl in Hj. eapply IH; [exact Hj|exact Hk|lia].
Qed.

Lemma read_frames_text_then i fs rest :
  Forall complete fs -> starts_clean rest ->
  read_frames i (flat_map frame_text fs ++ rest)
  = frames_at i fs
    ++ read_frames (i + length (flat_map frame_text fs)) rest.
Proof.
  intros Hfs Hrest. revert i.
  induction Hfs as [|f fs [Hc Hb] Hfs IH]; intros i; simpl.
  - by rewrite Nat.add_0_r.
  - rewrite read_frames_count by done.
    rewrite <- app_assoc.
    rewrite collect_body_app; [|done|].
    2:{ destruct fs as [|g fs]; simpl; [done|].
        inversion Hfs as [|? ? [Hg _] _]; subst. done. }
    simpl. rewrite IH. do 2 f_equal.
    rewrite length_app. f_equal. lia.
Qed.

Lemma write_frames_shift i j fs :
  flat_map write_frame (frames_at i fs) = flat_map write_frame (frames_at j fs).
Proof. by rewrite !write_frames_at. Qed.

Lemma main_index_free i input :
  flat_map write_frame (read_frames i input) = main input.
Proof.
  unfold main.
  destruct (read_frames_decompose i input)
    as (pre & fs & tail & Hin & Hpre & Hfs & Ht & Hread).
  rewrite Hread, Hin.
  rewrite read_frames_skip, read_frames_text by done.
  apply write_frames_shift.
Qed.

End FixLinenuMore.

Section FixLinenuExtras.
Import FixLinenu FixLinenuSpec FixLinenuFacts FixLinenuMore.

(** X1. A line is a count line exactly when it has one token and [int()]
    reads that token; white space before and after the line's text does
    not change the answer. *)
Theorem count_line_test_reads_tokens (sp1 sp2 line : string) :
  all_space (list_ascii_of_string sp1) ->
  all_space (list_ascii_of_string sp2) ->
  is_line_count (sp1 +:+ line +:+ sp2) = is_line_count line
  /\ (is_line_count line = true
      <-> exists tok, split line = [tok] /\ is_Some (py_int tok)).
Proof.
  intros H1 H2. split.
  - unfold is_line_count. by rewrite !split_strip, split_pad.
  - unfold is_line_count. rewrite split_strip.
    destruct (split line) as [|tok [|t ts]].
    + split; [done|]. by intros (? & ? & _).
    + destruct (py_int tok) eqn:E.
      * split; [|done]. intros _. exists tok. by rewrite E.
      * split; [done|]. intros (? & [= <-] & [? ?]). congruence.
    + split; [done|]. by intros (? & ? & _).
Qed.

Lemma count_line_test_reads_tokens_witness :
  is_line_count ("  	" +:+ "+1_2" +:+ ln " ") = is_line_count "+1_2".
Proof.
  refine (proj1 (count_line_test_reads_tokens "  	" (ln " ") "+1_2" _ _));
    repeat constructor.
Defined.

(** X2. Every frame the reader finds records where it stands in the
    input: at its [count_line_index] there is a count line, then the
    frame's comment, then exactly its body lines, none of them a count
    line, and then a count line or the end of the input; and the frames
    are found in input order without overlap. *)
Theorem frames_record_their_place (input : list string) :
  Forall (read_from input) (read_frames 0 input)
  /\ (forall j k f g,
        read_frames 0 input !! j = Some f ->
        read_frames 0 input !! k = Some g ->
        j < k -> ends_before f g).
Proof.
  destruct (read_frames_decompose 0 input)
    as (pre & fs & tail & Hin & Hpre & Hfs & Ht & Hread).
  rewrite Hread. split.
  - rewrite Hin. by apply frames_at_read_from.
  - intros j k f g. apply frames_at_apart.
Qed.

Lemma frames_record_their_place_witness :
  ends_before (Frame 1 (ln "c1") [ln "a"; ln "b"] 2) (Frame 5 (ln "c2") [] 0).
Proof.
  refine (proj2 (frames_record_their_place
                   [ln "x"; ln "2"; ln "c1"; ln "a"; ln "b"; ln "0"; ln "c2"])
            0 1 _ _ _ _ _).
  - by simp read_frames.
  - by simp read_frames.
  - lia.
Defined.

Lemma length_text_renumber fs :
  length (flat_map frame_text (map renumber fs))
  = length (flat_map frame_text fs).
Proof.
  induction fs as [|f fs IH]; simpl; [done|].
  rewrite !length_app, IH. done.
Qed.

(** X3. The normaliser writes no more lines than it reads; the comment
    and body lines it writes are lines of the input, in input order; and
    it writes as many lines as it reads exactly when the input is made
    of complete frames only. *)
Theorem normaliser_only_drops_lines (input : list string) :
  length (main input) <= length input
  /\ sublist (flat_map (fun f => comment f :: lines f) (read_frames 0 input))
       input
  /\ (length (main input) = length input
      <-> exists fs, Forall complete fs /\ input = flat_map frame_text fs).
Proof.
  destruct (read_frames_decompose 0 input)
    as (pre & fs & tail & Hin & Hpre & Hfs & Ht & Hread).
  assert (Hout : main input = flat_map frame_text (map renumber fs)).
  { rewrite Hin. by apply main_text. }
  assert (Hlen : length input
                 = length pre + length (flat_map frame_text fs) + length tail).
  { rewrite Hin, !length_app. lia. }
  split_and!.
  - rewrite Hout, length_text_renumber. lia.
  - rewrite Hread, Hin.
    apply sublist_inserts_l, sublist_inserts_r.
    clear. generalize (0 + length pre).
    induction fs as [|f fs IH]; intros i; simpl; [done|].
    apply sublist_cons, sublist_skip, sublist_app; [done|apply IH].
  - rewrite Hout, length_text_renumber, Hlen. split.
    + intros Heq. exists fs. split; [done|].
      assert (pre = []) as -> by (apply length_zero_iff_nil; lia).
      assert (tail = []) as -> by (apply length_zero_iff_nil; lia).
      by rewrite Hin, app_nil_r.
    + intros (gs & Hgs & Hg).
      pose proof (main_text [] gs [] ltac:(constructor) Hgs (or_introl eq_refl))
        as H.
      simpl in H. rewrite app_nil_r, <- Hg, Hout in H.
      apply (f_equal (@length string)) in H.
      rewrite !length_text_renumber, <- Hg, Hlen in H. lia.
Qed.

(** X4. Complete frames followed by a text that starts with a count line
    (or is empty) are normalised piece by piece: the output is the
    output for the frames followed by the output for the rest. *)
Theorem normaliser_splits_at_count_line (fs : list src_frame)
    (rest : list string) :
  Forall complete fs -> starts_clean rest ->
  main (flat_map frame_text fs ++ rest)
  = main (flat_map frame_text fs) ++ main rest.
Proof.
  intros Hfs Hrest. unfold main at 1.
  rewrite read_frames_text_then by done.
  rewrite flat_map_app, main_index_free, write_frames_at.
  f_equal.
  pose proof (main_text [] fs [] ltac:(constructor) Hfs (or_introl eq_refl))
    as H.
  simpl in H. by rewrite app_nil_r in H.
Qed.

Lemma normaliser_splits_at_count_line_witness :
  let fs := [SrcFrame (ln "9") (ln "first") [ln "A 0 0 0"]] in
  let rest := [ln " 5"; ln "second"; ln "B 1 1 1"; ln "C 2 2 2"] in
  main (flat_map frame_text fs ++ rest)
  = main (flat_map frame_text fs) ++ main rest.
Proof.
  intros fs rest. apply (normaliser_splits_at_count_line fs rest).
  - repeat constructor.
  - reflexivity.
Defined.

End FixLinenuExtras.

(** ** The definition file *)

Module MsiteDefinitionsFacts.
Import AddGenMsite MsiteDefinitions.
Section WithFloat.
Context {F : PyFloat}.

(** What the loader guarantees of a definition: at least one pattern
    atom and one coefficient for each. *)
Definition well_formed (d : defn) : Prop :=
  atom_names d <> [] /\ length (coefficients d) = length (atom_names d).

Lemma parse_block_well_formed mol_type pattern_line coeff_line d :
  parse_block mol_type pattern_line coeff_line = inl d -> well_formed d.
Proof.
  unfold parse_block.
  destruct (length (split pattern_line) <? 2) eqn:E2; [done|].
  apply Nat.ltb_ge in E2.
  destruct (mapM parse_float (split coeff_line)) as [cs|]; [|done].
  destruct (length cs =? length _) eqn:El; [|done].
  apply Nat.eqb_eq in El. simpl. intros [= <-]. split; simpl; [|done].
  intros Hnil. apply (f_equal (@length string)) in Hnil.
  rewrite length_take in Hnil. simpl in Hnil. lia.
Qed.

Lemma parse_blocks_well_formed lines :
  Forall well_formed (parse_blocks lines).1.
Proof.
  remember (length lines) as n eqn:En. revert lines En.
  induction n as [n IH] using lt_wf_ind. intros lines En.
  destruct lines as [|a [|b [|c rest]]]; try by constructor.
  simpl. destruct (parse_block a b c) as [d|w] eqn:E; simpl.
  - constructor; [by eapply parse_block_well_formed|].
    eapply IH; [|done]. subst n. simpl. lia.
  - eapply IH; [|done]. subst n. simpl. lia.
Qed.

Lemma parse_blocks_count lines :
  length (parse_blocks lines).1 + length (parse_blocks lines).2
  = length lines / 3.
Proof.
  remember (length lines) as n eqn:En. revert lines En.
  induction n as [n IH] using lt_wf_ind. intros lines En.
  destruct lines as [|a [|b [|c rest]]]; try (subst n; reflexivity).
  assert (Hrest : length (parse_blocks rest).1 + length (parse_blocks rest).2
                  = length rest / 3).
  { eapply IH; [|done]. subst n. simpl. lia. }
  assert (Hn : n / 3 = S (length rest / 3)).
  { subst n. simpl length.
    replace (S (S (S (length rest)))) with (1 * 3 + length rest) by lia.
    rewrite Nat.div_add_l by lia. lia. }
  rewrite Hn, <- Hrest. simpl parse_blocks.
  destruct (parse_block a b c); simpl; lia.
Qed.

Lemma parse_blocks_app a b :
  length a `mod` 3 = 0 ->
  parse_blocks (a ++ b)
  = ((parse_blocks a).1 ++ (parse_blocks b).1,
     (parse_blocks a).2 ++ (parse_blocks b).2).
Proof.
  remember (length a) as n eqn:En. revert a En.
  induction n as [n IH] using lt_wf_ind. intros a En Hmod.
  destruct a as [|x [|y [|z rest]]].
  - simpl. by destruct (parse_blocks b).
  - subst n. discriminate Hmod.
  - subst n. discriminate Hmod.
  - assert (Hrest : length rest `mod` 3 = 0).
    { subst n. simpl length in Hmod.
      replace (S (S (S (length rest)))) with (length rest + 1 * 3) in Hmod
        by lia.
      by rewrite Nat.Div0.mod_add in Hmod. }
    simpl. rewrite (IH (length rest)); [|subst n; simpl; lia|done|done].
    simpl. by destruct (parse_block x y z).
Qed.

Lemma kept_lines_app f1 f2 :
  kept_lines (f1 ++ f2) = kept_lines f1 ++ kept_lines f2.
Proof. unfold kept_lines. by rewrite filter_app, fmap_app. Qed.

Lemma split_empty_of_blank s : strip s = "" -> split s = [].
Proof. intros H. by rewrite <- split_strip, H. Qed.

End WithFloat.
End MsiteDefinitionsFacts.

Section MsiteDefinitionsExtras.
Import AddGenMsite MsiteDefinitions MsiteDefinitionsFacts.
Context {F : PyFloat}.

(** X5. Every definition the loader returns has at least one pattern
    atom and exactly one coefficient for each pattern atom, whatever the
    file holds. *)
Theorem loaded_definitions_are_well_formed (f : list string) :
  Forall well_formed (parse_msite_definitions f).1.
Proof. apply parse_blocks_well_formed. Qed.

(** X6. The kept lines of the file are read three at a time: every full
    block of three gives one definition or one warning, never both or
    neither, and one or two lines left at the end give nothing. *)
Theorem every_block_is_loaded_or_warned (f : list string) :
  length (parse_msite_definitions f).1 + length (parse_msite_definitions f).2
  = length (kept_lines f) / 3.
Proof. apply parse_blocks_count. Qed.

(** X7. Blocks are read independently and in file order: when the first
    part of a file holds whole blocks only, the definitions and warnings
    of the file are those of the first part followed by those of the
    rest; and a blank line or a line that starts with [#], put anywhere,
    changes nothing. *)
Theorem definition_blocks_are_independent
    (f1 f2 g1 g2 : list string) (c : string) :
  length (kept_lines f1) `mod` 3 = 0 ->
  strip c = "" \/ starts_with_hash c = true ->
  parse_msite_definitions (f1 ++ f2)
  = ((parse_msite_definitions f1).1 ++ (parse_msite_definitions f2).1,
     (parse_msite_definitions f1).2 ++ (parse_msite_definitions f2).2)
  /\ parse_msite_definitions (g1 ++ c :: g2)
     = parse_msite_definitions (g1 ++ g2).
Proof.
  intros Hmod Hc. split.
  - unfold parse_msite_definitions.
    rewrite kept_lines_app. by apply parse_blocks_app.
  - unfold parse_msite_definitions. f_equal.
    rewrite !kept_lines_app. f_equal.
    unfold kept_lines. rewrite filter_cons, decide_False; [done|].
    intros [Hs Hh]. destruct Hc as [Hc|Hc]; congruence.
Qed.

(** X8. A block whose three lines are a non-blank label, N atom names
    followed by a site name (N at least 1), and N tokens that [float()]
    reads, none of the lines starting with [#], is loaded as the
    definition with that label (stripped), these names, that site name and
    these coefficients, with no warning. *)
Theorem well_formed_block_is_loaded
    (l1 l2 l3 : string) (names : list string) (site : string)
    (coeffs : list num) :
  starts_with_hash l1 = false -> starts_with_hash l2 = false ->
  starts_with_hash l3 = false ->
  strip l1 <> "" ->
  split l2 = names ++ [site] -> names <> [] ->
  mapM parse_float (split l3) = Some coeffs ->
  length coeffs = length names ->
  parse_msite_definitions [l1; l2; l3]
  = ([Defn (strip l1) names site coeffs], []).
Proof.
  intros Hh1 Hh2 Hh3 Hs1 Hs2 Hn Hc Hlen.
  assert (Hk2 : strip l2 <> "").
  { intros H. apply split_empty_of_blank in H. rewrite Hs2 in H.
    by destruct names. }
  assert (Hk3 : strip l3 <> "").
  { intros H. apply split_empty_of_blank in H. rewrite H in Hc.
    injection Hc as <-. by destruct names. }
  unfold parse_msite_definitions, kept_lines.
  rewrite !filter_cons, filter_nil, !decide_True by done.
  simpl. unfold parse_block. rewrite !split_strip, Hs2, Hc.
  rewrite length_app, last_snoc. simpl length.
  replace (length names + 1 - 1) with (length names) by lia.
  rewrite take_app_length.
  destruct (length names + 1 <? 2) eqn:E.
  { apply Nat.ltb_lt in E. destruct names; [done|simpl in E; lia]. }
  by rewrite Hlen, Nat.eqb_refl.
Qed.

End MsiteDefinitionsExtras.

Section MsiteDefinitionsWitnesses.
Import AddGenMsite MsiteDefinitions MsiteDefinitionsFacts.
Local Existing Instance IntFloat.

Lemma definition_blocks_are_independent_witness :
  let f1 := [ln "DMA"; ln "C1 H2 C1 EM"; ln "2 2 2"] in
  let f2 := [ln "W"; ln "O H M"; ln "1"; ln "left over"] in
  parse_msite_definitions (f1 ++ f2)
  = ([@Defn IntFloat "DMA" ["C1"; "H2"; "C1"] "EM" [2; 2; 2]%Z],
     [ln "Warning: Coefficient count mismatch for W"])
  /\ parse_msite_definitions (f1 ++ ln "# a comment" :: f2)
     = parse_msite_definitions (f1 ++ f2).
Proof.
  intros f1 f2.
  destruct (@definition_blocks_are_independent IntFloat f1 f2 f1 f2
              (ln "# a comment")
              eq_refl (or_intror eq_refl)) as [H1 H2].
  split; [rewrite H1; reflexivity|exact H2].
Defined.

Lemma well_formed_block_is_loaded_witness :
  parse_msite_definitions [ln " DMA"; ln "C1 H2 C1 EM"; ln "2 2 2"]
  = ([@Defn IntFloat "DMA" ["C1"; "H2"; "C1"] "EM" [2; 2; 2]%Z], []).
Proof.
  apply (@well_formed_block_is_loaded IntFloat (ln " DMA") (ln "C1 H2 C1 EM")
           (ln "2 2 2") ["C1"; "H2"; "C1"] "EM" [2; 2; 2]%Z);
    try reflexivity; done.
Defined.

End MsiteDefinitionsWitnesses.

(** ** More on the atoms of a molecule and the matcher *)

Module AddGenMsiteMore.
Import AddGenMsite MatcherSpec MatcherFacts SynthFacts MsiteDefinitionsFacts.
Section WithFloat.
Context {F : PyFloat}.

(** The definition matches the molecule: the test [if pattern_atoms:]. *)
Definition matches (atoms : list atom) (d : defn) : bool :=
  match find_pattern_in_molecule atoms (atom_names d) with
  | Some (_ :: _) => true
  | _ => false
  end.

Lemma read_atom_is_atom_line i line :
  is_Some (read_atom i line) <-> is_atom_line line = true.
Proof.
  unfold read_atom. destruct (is_atom_line line) eqn:Hal.
  - split; [done|]. intros _. unfold is_atom_line in Hal.
    destruct (split line) as [|n [|sx [|sy [|sz rest]]]]; try done.
    cbn in Hal.
    destruct (parse_float sx); [|done].
    destruct (parse_float sy); [|done].
    destruct (parse_float sz); [|done].
    by eexists.
  - split; [by intros [? ?]|done].
Qed.

Lemma read_atoms_length i mol_lines :
  length (read_atoms i mol_lines)
  = length (filter (fun l => is_atom_line l = true) mol_lines).
Proof.
  revert i. induction mol_lines as [|l mol_lines IH]; intros i; [done|].
  simpl. rewrite filter_cons.
  pose proof (read_atom_is_atom_line i l) as H.
  destruct (read_atom i l) as [a|].
  - rewrite decide_True by (apply H; by eexists). simpl. by rewrite IH.
  - rewrite decide_False; [apply IH|].
    intros Ht. apply H in Ht as [? ?]. done.
Qed.

Lemma read_atoms_from i mol_lines :
  Forall (fun a => i <= line_index a) (read_atoms i mol_lines).
Proof.
  apply Forall_forall. intros a Ha. by apply read_atoms_elem in Ha as [? _].
Qed.

Lemma read_atoms_ascending i mol_lines j k a b :
  read_atoms i mol_lines !! j = Some a ->
  read_atoms i mol_lines !! k = Some b ->
  j < k -> line_index a < line_index b.
Proof.
  revert i j k. induction mol_lines as [|l mol_lines IH]; intros i j k; [done|].
  simpl. destruct (read_atom i l) as [c|] eqn:E; [|apply IH].
  intros Hj Hk Hlt. destruct k as [|k]; [lia|]. simpl in Hk.
  destruct j as [|j].
  - simpl in Hj. injection Hj as ->.
    apply read_atom_tokens in E as (_ & _ & _ & _ & Hi).
    pose proof (read_atoms_from (S i) mol_lines) as Hall.
    rewrite Forall_forall in Hall.
    pose proof (Hall b ltac:(by eapply list_elem_of_lookup_2)). lia.
  - simpl in Hj. eapply IH; [exact Hj|exact Hk|lia].
Qed.

Lemma occurrences_length nm atoms :
  length (occurrences nm atoms) = count_name nm (name <$> atoms).
Proof.
  induction atoms as [|a atoms IH] using rev_ind; [done|].
  rewrite occurrences_snoc, fmap_app, length_app, IH.
  unfold count_name. rewrite filter_app, length_app. f_equal.
  simpl. rewrite filter_cons, filter_nil. by case_decide.
Qed.

Lemma slot_rank_le_count pattern i nm :
  pattern !! i = Some nm -> slot_rank pattern i <= count_name nm pattern.
Proof.
  intros Hi. unfold slot_rank. rewrite Hi.
  pose proof (count_name_take_le nm pattern (S i) (length pattern)) as H.
  rewrite firstn_all in H. apply H. apply lookup_lt_Some in Hi. lia.
Qed.

Lemma slot_rank_snoc pattern k i :
  i < length pattern -> slot_rank (pattern ++ [k]) i = slot_rank pattern i.
Proof.
  intros Hi. unfold slot_rank.
  rewrite lookup_app_l by done. rewrite take_app_le by lia. done.
Qed.

Lemma last_slot_rank pattern nm :
  nm ∈ pattern ->
  exists i, pattern !! i = Some nm /\ slot_rank pattern i = count_name nm pattern.
Proof.
  induction pattern as [|k pattern IH] using rev_ind.
  { intros H. by apply elem_of_nil in H. }
  intros Hin. destruct (decide (k = nm)) as [->|Hne].
  - exists (length pattern). split.
    + by rewrite lookup_app_r, Nat.sub_diag by lia.
    + unfold slot_rank. rewrite lookup_app_r, Nat.sub_diag by lia. simpl.
      rewrite take_ge; [done|]. rewrite length_app. simpl. lia.
  - apply elem_of_app in Hin as [Hin|Hin].
    2:{ apply list_elem_of_singleton in Hin. congruence. }
    destruct (IH Hin) as (i & Hi & Hr). exists i.
    pose proof (lookup_lt_Some _ _ _ Hi) as Hlt. split.
    + by rewrite lookup_app_l.
    + rewrite slot_rank_snoc by done. rewrite Hr.
      unfold count_name. rewrite filter_app, length_app.
      rewrite filter_cons, filter_nil, decide_False by done. simpl. lia.
Qed.

Lemma slot_binding_is_Some atoms pattern i nm :
  pattern !! i = Some nm ->
  is_Some (slot_binding atoms pattern i)
  <-> slot_rank pattern i <= count_name nm (name <$> atoms).
Proof.
  intros Hi. unfold slot_binding. rewrite Hi. simpl.
  pose proof (slot_rank_pos pattern i nm Hi) as Hpos.
  unfold kth_occurrence. destruct (slot_rank pattern i) as [|k]; [lia|].
  rewrite <- occurrences_length, lookup_lt_is_Some. lia.
Qed.

Lemma count_name_notin nm (l : list string) : nm ∉ l -> count_name nm l = 0.
Proof.
  induction l as [|k l IH]; [done|]. intros Hnot.
  apply not_elem_of_cons in Hnot as [Hne Hnot].
  rewrite count_name_cons, decide_False by done. by rewrite IH.
Qed.

(** The match succeeds exactly when the molecule has each name at least
    as often as the pattern. *)
Lemma find_pattern_is_Some atoms pattern :
  is_Some (find_pattern_in_molecule atoms pattern)
  <-> forall nm, count_name nm pattern <= count_name nm (name <$> atoms).
Proof.
  rewrite find_pattern_slots, mapM_is_Some, Forall_forall. split.
  - intros H nm.
    destruct (decide (nm ∈ pattern)) as [Hin|Hnot].
    + destruct (last_slot_rank pattern nm Hin) as (i & Hi & Hr).
      rewrite <- Hr. apply (slot_binding_is_Some atoms pattern i nm Hi).
      assert (Hseq : i ∈ seq 0 (length pattern)).
      { apply elem_of_seq. apply lookup_lt_Some in Hi. lia. }
      specialize (H i Hseq). simpl in H.
      destruct (slot_binding atoms pattern i) eqn:Eb; [by eexists|].
      by destruct H.
    + rewrite count_name_notin by done. lia.
  - intros H i Hi. apply elem_of_seq in Hi as [_ Hi]. simpl in Hi.
    destruct (lookup_lt_is_Some_2 pattern i Hi) as [nm Hnm].
    simpl.
    assert (Hs : is_Some (slot_binding atoms pattern i)).
    { apply (slot_binding_is_Some atoms pattern i nm Hnm).
      pose proof (slot_rank_le_count pattern i nm Hnm).
      specialize (H nm). lia. }
    destruct Hs as [pa Hpa]. rewrite Hpa. by eexists.
Qed.

(** The bound atoms bear the names of the pattern, slot by slot. *)
Lemma find_pattern_names atoms pattern bound :
  find_pattern_in_molecule atoms pattern = Some bound ->
  name <$> bound = pattern.
Proof.
  intros H. destruct (find_pattern_bound _ _ _ H) as [Hlen Hb].
  apply list_eq. intros i. rewrite list_lookup_fmap.
  destruct (bound !! i) as [a|] eqn:Ea; simpl.
  - destruct (Hb i a Ea) as [p Hp].
    apply slot_binding_spec in Hp as (nm & Hi & _ & Hn & _). congruence.
  - symmetry. apply lookup_ge_None. apply lookup_ge_None in Ea. lia.
Qed.

Lemma slot_binding_app atoms more pattern i pa :
  slot_binding atoms pattern i = Some pa ->
  slot_binding (atoms ++ more) pattern i = Some pa.
Proof.
  destruct pa as [p a]. rewrite !slot_binding_spec.
  intros (nm & Hi & Ha & Hn & Hr). exists nm.
  pose proof (lookup_lt_Some _ _ _ Ha) as Hlt.
  split_and!; try done.
  - by rewrite lookup_app_l.
  - rewrite <- Hr. unfold running_count.
    rewrite lookup_app_l by done. rewrite take_app_le by lia. done.
Qed.

(** Atoms that follow do not change a match that has succeeded. *)
Lemma find_pattern_app atoms more pattern bound :
  find_pattern_in_molecule atoms pattern = Some bound ->
  find_pattern_in_molecule (atoms ++ more) pattern = Some bound.
Proof.
  rewrite !find_pattern_slots. intros H.
  apply mapM_Some_1 in H. apply mapM_Some_2.
  eapply Forall2_impl; [exact H|]. simpl. intros i a Hi.
  destruct (slot_binding atoms pattern i) as [pa|] eqn:Eb; [|done].
  by rewrite (slot_binding_app atoms more pattern i pa Eb).
Qed.

Lemma list_insert_at_length {A} i (v : A) l :
  length (list_insert_at i v l) = S (length l).
Proof.
  unfold list_insert_at. rewrite length_app. simpl.
  rewrite length_take, length_drop. lia.
Qed.

Lemma list_insert_at_sublist {A} i (v : A) l :
  sublist l (list_insert_at i v l).
Proof.
  unfold list_insert_at. rewrite <- (take_drop i l) at 1.
  apply sublist_app; [done|]. by apply sublist_cons.
Qed.

Lemma list_insert_at_perm {A} i (v : A) l :
  list_insert_at i v l ≡ₚ v :: l.
Proof.
  unfold list_insert_at. rewrite <- Permutation_middle.
  by rewrite take_drop.
Qed.

Lemma apply_insertions_length insertions out :
  length (apply_insertions insertions out) = length out + length insertions.
Proof.
  induction insertions as [|il insertions IH];
    [unfold apply_insertions; simpl; lia|].
  rewrite apply_insertions_cons, list_insert_at_length, IH. simpl. lia.
Qed.

Lemma apply_insertions_sublist insertions out :
  sublist out (apply_insertions insertions out).
Proof.
  induction insertions as [|il insertions IH]; [done|].
  rewrite apply_insertions_cons.
  etrans; [exact IH|apply list_insert_at_sublist].
Qed.

Lemma apply_insertions_perm insertions out :
  apply_insertions insertions out ≡ₚ insertions.*2 ++ out.
Proof.
  induction insertions as [|il insertions IH]; [done|].
  rewrite apply_insertions_cons, list_insert_at_perm, IH. done.
Qed.

Ltac raised :=
  let H := fresh in intros H; unfold mbind, result_bind in H; discriminate H.

(** A line built for insertion goes to the index after the line of the
    last bound atom, an index of the molecule or its length. *)
Lemma make_insertion_index mol_lines d bound i l :
  make_insertion mol_lines d bound = Ok (i, l) ->
  i <= length mol_lines
  /\ exists last_atom, last bound = Some last_atom
                       /\ i = line_index last_atom + 1.
Proof.
  unfold make_insertion.
  destruct (weighted_sum (coefficients d) (map x bound)) as [mx|e]; [|raised].
  rewrite result_bind_Ok.
  destruct (weighted_sum (coefficients d) (map y bound)) as [my|e]; [|raised].
  rewrite result_bind_Ok.
  destruct (weighted_sum (coefficients d) (map z bound)) as [mz|e]; [|raised].
  rewrite result_bind_Ok.
  destruct (py_index bound (length bound - 1)) as [last_atom|e] eqn:El;
    [|raised].
  rewrite result_bind_Ok.
  destruct (py_index mol_lines (line_index last_atom)) as [tpl|e] eqn:Et;
    [|raised].
  rewrite result_bind_Ok.
  destruct (if 8 <=? length (split tpl) then _ else _) as [msite_line|e];
    [|raised].
  rewrite result_bind_Ok. intros [= <- <-].
  unfold py_index in El, Et.
  destruct (bound !! (length bound - 1)) as [a|] eqn:El'; [|done].
  injection El as ->.
  destruct (mol_lines !! line_index last_atom) as [t|] eqn:Et'; [|done].
  apply lookup_lt_Some in Et'. split; [lia|].
  exists last_atom. split; [|done].
  rewrite last_lookup, <- El'. f_equal. lia.
Qed.

Lemma collect_insertions_count mol_lines atoms defs insertions :
  collect_insertions mol_lines atoms defs = Ok insertions ->
  length insertions = length (filter (fun d => matches atoms d = true) defs)
  /\ Forall (fun il => il.1 <= length mol_lines) insertions.
Proof.
  revert insertions. induction defs as [|d defs IH]; intros insertions; simpl.
  { intros [= <-]. split; [done|constructor]. }
  assert (Hm : forall o, find_pattern_in_molecule atoms (atom_names d) = o ->
            matches atoms d = match o with Some (_ :: _) => true | _ => false end).
  { intros o <-. done. }
  rewrite filter_cons.
  destruct (find_pattern_in_molecule atoms (atom_names d)) as [[|a pa]|] eqn:Ef;
    rewrite (Hm _ eq_refl).
  - rewrite decide_False by done. apply IH.
  - rewrite decide_True by done.
    destruct (make_insertion mol_lines d (a :: pa)) as [[i l]|e] eqn:Em;
      [|raised].
    rewrite result_bind_Ok.
    destruct (collect_insertions mol_lines atoms defs) as [rest|e];
      [|raised].
    rewrite result_bind_Ok. intros [= <-].
    destruct (IH rest eq_refl) as [Hlen Hall].
    split; [simpl; by rewrite Hlen|].
    constructor; [|done]. simpl.
    by apply make_insertion_index in Em as [? _].
  - rewrite decide_False by done. apply IH.
Qed.

(** The lines on which the program can fail: atom lines of exactly 8
    tokens. *)
Definition risky (line : string) : Prop :=
  is_atom_line line = true /\ length (split line) = 8.

Lemma make_insertion_safe mol_lines d bound :
  find_pattern_in_molecule (read_atoms 0 mol_lines) (atom_names d) = Some bound ->
  well_formed d ->
  Forall (fun l => ~ risky l) mol_lines ->
  exists il, make_insertion mol_lines d bound = Ok il.
Proof.
  intros Hfind [Hne Hlen] Hsafe.
  destruct (last_bound_line _ _ _ Hfind Hne)
    as (last_atom & template & Hlast & Htpl & Hread).
  destruct (find_pattern_bound _ _ _ Hfind) as [Hb _].
  rewrite (make_insertion_spec mol_lines d bound last_atom template)
    by (done || lia).
  destruct (8 <=? length (split template)) eqn:E8; [|by eexists].
  apply Nat.leb_le in E8.
  assert (Hn8 : length (split template) <> 8).
  { intros H8. rewrite Forall_forall in Hsafe.
    apply (Hsafe template); [by eapply list_elem_of_lookup_2|].
    split; [|done].
    apply (read_atom_is_atom_line (line_index last_atom)). by eexists. }
  destruct (lookup_lt_is_Some_2 (split template) 7 ltac:(lia)) as [p7 ->].
  destruct (lookup_lt_is_Some_2 (split template) 8 ltac:(lia)) as [p8 ->].
  by eexists.
Qed.

Lemma process_molecule_safe mol_lines defs :
  Forall well_formed defs ->
  Forall (fun l => ~ risky l) mol_lines ->
  exists out, process_molecule mol_lines defs = Ok out.
Proof.
  intros Hdefs Hsafe. unfold process_molecule.
  assert (H : exists insertions,
             collect_insertions mol_lines (read_atoms 0 mol_lines) defs
             = Ok insertions).
  { induction Hdefs as [|d defs Hd Hdefs IH]; simpl; [by eexists|].
    destruct IH as [rest Hrest].
    destruct (find_pattern_in_molecule _ (atom_names d)) as [[|a pa]|] eqn:Ef;
      try by eexists.
    destruct (make_insertion_safe mol_lines d (a :: pa) Ef Hd Hsafe)
      as [il Hil].
    rewrite Hil, Hrest. by eexists. }
  destruct H as [insertions ->]. by eexists.
Qed.

Lemma process_molecule_keeps mol_lines defs out :
  process_molecule mol_lines defs = Ok out ->
  sublist mol_lines out
  /\ length out
     = length mol_lines
       + length (filter (fun d => matches (read_atoms 0 mol_lines) d = true) defs).
Proof.
  unfold process_molecule.
  destruct (collect_insertions _ _ _) as [insertions|e] eqn:Ec; [|raised].
  rewrite result_bind_Ok. intros [= <-].
  apply collect_insertions_count in Ec as [Hlen _].
  split; [apply apply_insertions_sublist|].
  by rewrite apply_insertions_length, Hlen.
Qed.

(** *** The main loop *)

Lemma finished {A} (k : list A * option exn) : k.2 = None -> k = (k.1, None).
Proof. destruct k as [k1 k2]. simpl. by intros ->. Qed.

Lemma flush_kept defs cur k out :
  flush defs cur k = (out, None) ->
  exists o, sublist cur o /\ out = o ++ k.1 /\ k.2 = None.
Proof.
  destruct k as [k1 k2]. unfold flush. destruct cur as [|c cur].
  - intros [= -> ->]. by exists [].
  - destruct (process_molecule (c :: cur) defs) as [o|e] eqn:Ep; [|done].
    simpl. intros [= <- ->]. exists o.
    by apply process_molecule_keeps in Ep as [? _].
Qed.

(** Without an uncaught exception, the lines pending and the lines read
    are all written, in their order. *)
Lemma main_loop_keeps defs input current_mol_id cur header_mode out :
  main_loop defs input current_mol_id cur header_mode = (out, None) ->
  (header_mode = true -> cur = []) ->
  sublist (cur ++ input) out.
Proof.
  revert current_mol_id cur header_mode out.
  induction input as [|line input IH];
    intros current_mol_id cur header_mode out; simpl.
  - intros H _. apply flush_kept in H as (o & Hs & -> & _).
    simpl. by rewrite !app_nil_r.
  - destruct (header_mode && bool_decide (get_molecule_id line <> None))
      eqn:Eh.
    + (* the header ends with this line *)
      destruct (decide (get_molecule_id line = current_mol_id)) as [Hid|Hid].
      * intros H _. apply IH in H; [|done]. by rewrite <- app_assoc in H.
      * intros H _. apply flush_kept in H as (o & Hs & -> & Hk).
        apply sublist_app; [done|].
        destruct (get_molecule_id line) as [id|] eqn:Eid.
        -- apply (IH (Some id) [line] false); [|done].
           by apply finished.
        -- simpl. apply sublist_skip. simpl in Hk.
           apply (IH None [] false); [|done].
           by apply finished.
    + destruct header_mode.
      * (* still in the header *)
        intros H Hc. rewrite (Hc eq_refl). simpl.
        destruct (main_loop defs input current_mol_id cur true)
          as [k1 k2] eqn:Ek.
        simpl in H. injection H as <- ->. apply sublist_skip.
        apply IH in Ek; [|done]. by rewrite (Hc eq_refl) in Ek.
      * destruct (decide (get_molecule_id line = current_mol_id)) as [Hid|Hid].
        -- intros H _. apply IH in H; [|done]. by rewrite <- app_assoc in H.
        -- intros H _. apply flush_kept in H as (o & Hs & -> & Hk).
           apply sublist_app; [done|].
           destruct (get_molecule_id line) as [id|] eqn:Eid.
           ++ apply (IH (Some id) [line] false); [|done].
              by apply finished.
           ++ simpl. apply sublist_skip. simpl in Hk.
              apply (IH None [] false); [|done].
              by apply finished.
Qed.

Lemma flush_safe defs cur k :
  Forall well_formed defs -> Forall (fun l => ~ risky l) cur ->
  (flush defs cur k).2 = k.2.
Proof.
  intros Hdefs Hcur. unfold flush. destruct cur as [|c cur]; [done|].
  destruct (process_molecule_safe (c :: cur) defs Hdefs Hcur) as [o ->]. done.
Qed.

(** With well-formed definitions and no atom line of exactly 8 tokens
    the loop ends without an exception. *)
Lemma main_loop_safe defs input current_mol_id cur header_mode :
  Forall well_formed defs ->
  Forall (fun l => ~ risky l) input -> Forall (fun l => ~ risky l) cur ->
  (main_loop defs input current_mol_id cur header_mode).2 = None.
Proof.
  intros Hdefs Hin. revert current_mol_id cur header_mode.
  induction Hin as [|line input Hl Hin IH];
    intros current_mol_id cur header_mode Hcur; simpl.
  - by rewrite flush_safe.
  - destruct (if header_mode && bool_decide (get_molecule_id line <> None)
              then false else header_mode).
    + simpl. by apply IH.
    + destruct (decide (get_molecule_id line = current_mol_id)).
      * apply IH. apply Forall_app. split; [done|by constructor].
      * rewrite flush_safe by done.
        destruct (get_molecule_id line).
        -- apply IH. by constructor.
        -- simpl. apply IH. constructor.
Qed.

Lemma flush_no_definitions cur k :
  flush (F := F) [] cur k = (cur ++ k.1, k.2).
Proof. destruct k as [k1 k2]. by destruct cur. Qed.

Lemma main_loop_no_definitions input current_mol_id cur header_mode :
  (header_mode = true -> cur = []) ->
  main_loop (F := F) [] input current_mol_id cur header_mode
  = (cur ++ input, None).
Proof.
  revert current_mol_id cur header_mode.
  induction input as [|line input IH];
    intros current_mol_id cur header_mode Hc; simpl.
  - by rewrite flush_no_definitions.
  - destruct (if header_mode && bool_decide (get_molecule_id line <> None)
              then false else header_mode) eqn:Eh.
    + assert (header_mode = true) as -> by (by destruct header_mode).
      rewrite (Hc eq_refl). by rewrite IH.
    + destruct (decide (get_molecule_id line = current_mol_id)).
      * rewrite IH by done. by rewrite <- app_assoc.
      * rewrite flush_no_definitions.
        destruct (get_molecule_id line); rewrite IH by done; done.
Qed.

(** The header: the lines before the first line that has a molecule id
    are written as they are. *)
Lemma main_loop_header defs header rest :
  Forall (fun l => get_molecule_id l = None) header ->
  main_loop defs (header ++ rest) None [] true
  = (header ++ (main_loop defs rest None [] true).1,
     (main_loop defs rest None [] true).2).
Proof.
  induction 1 as [|line header Hl Hh IH]; simpl.
  - by destruct (main_loop defs rest None [] true).
  - rewrite Hl. simpl. by rewrite IH.
Qed.

(** A molecule: lines, at least one, that all bear the molecule id. *)
Definition molecule (id : string) (g : list string) : Prop :=
  g <> [] /\ Forall (fun l => get_molecule_id l = Some id) g.

(** Molecules in a row, each with an id other than the one before it;
    [prev] is the id before the first. *)
Fixpoint grouped (prev : option string) (groups : list (string * list string))
  : Prop :=
  match groups with
  | [] => True
  | g :: gs => Some g.1 <> prev /\ molecule g.1 g.2 /\ grouped (Some g.1) gs
  end.

(** The molecules processed and written one after the other, up to the
    first that raises. *)
Fixpoint emit (defs : list defn) (groups : list (string * list string))
  : list string * option exn :=
  match groups with
  | [] => ([], None)
  | g :: gs => flush defs g.2 (emit defs gs)
  end.

Lemma main_loop_same_id defs id ls more cur :
  Forall (fun l => get_molecule_id l = Some id) ls ->
  main_loop defs (ls ++ more) (Some id) cur false
  = main_loop defs more (Some id) (cur ++ ls) false.
Proof.
  intros Hls. revert cur. induction Hls as [|l ls Hl Hls IH]; intros cur; simpl.
  - by rewrite app_nil_r.
  - rewrite Hl. rewrite decide_True by done.
    rewrite IH. by rewrite <- app_assoc.
Qed.

Lemma main_loop_groups defs groups prev cur header_mode :
  grouped prev groups ->
  main_loop defs (flat_map snd groups) prev cur header_mode
  = flush defs cur (emit defs groups).
Proof.
  revert prev cur header_mode.
  induction groups as [|[id g] groups IH]; intros prev cur header_mode; [done|].
  simpl. intros (Hprev & [Hne Hg] & Hrest).
  destruct g as [|l ls]; [done|].
  inversion Hg as [|? ? Hl Hls]; subst. simpl. rewrite Hl.
  replace (if header_mode && bool_decide (Some id <> None)
           then false else header_mode) with false
    by (by destruct header_mode).
  rewrite decide_False by done.
  rewrite main_loop_same_id by done.
  by rewrite IH.
Qed.

Lemma emit_all_Ok defs groups outs :
  Forall2 (fun g o => process_molecule g.2 defs = Ok o) groups outs ->
  Forall (fun g => g.2 <> []) groups ->
  emit defs groups = (concat outs, None).
Proof.
  induction 1 as [|g o groups outs Hg Hgs IH]; intros Hne; [done|].
  inversion Hne as [|? ? Hg0 Hne']; subst.
  simpl. rewrite (IH Hne'). unfold flush.
  destruct (g.2) as [|c cs] eqn:Eg; [done|]. by rewrite Hg.
Qed.

Lemma main_keeps_input defs input :
  uncaught (main defs input) = None ->
  sublist input (stdout (main defs input)).
Proof.
  unfold main. simpl. intros H.
  apply (main_loop_keeps defs input None [] true); [|done].
  by apply finished.
Qed.

End WithFloat.
End AddGenMsiteMore.



Section AddGenMsiteExtras.
Import AddGenMsite MatcherSpec MatcherFacts SynthFacts.
Import MsiteDefinitions MsiteDefinitionsFacts AddGenMsiteMore.
Context {F : PyFloat}.

(** X9. The atoms of a molecule are its atom lines, one atom for each,
    in file order: an atom's [line_index] is the index of an atom line
    whose first token is the atom's name and whose next three tokens
    read as its coordinates, and the indices ascend along the list. *)
Theorem atoms_are_the_atom_lines (mol_lines : list string) :
  length (read_atoms 0 mol_lines)
  = length (filter (fun l => is_atom_line l = true) mol_lines)
  /\ (forall a, a ∈ read_atoms 0 mol_lines ->
        exists line,
          mol_lines !! line_index a = Some line
          /\ is_atom_line line = true
          /\ split line !! 0 = Some (name a)
          /\ split line !! 1 ≫= parse_float = Some (x a)
          /\ split line !! 2 ≫= parse_float = Some (y a)
          /\ split line !! 3 ≫= parse_float = Some (z a))
  /\ (forall j k a b,
        read_atoms 0 mol_lines !! j = Some a ->
        read_atoms 0 mol_lines !! k = Some b ->
        j < k -> line_index a < line_index b).
Proof.
  split_and!.
  - apply read_atoms_length.
  - intros a Ha. apply read_atoms_line in Ha as (line & Hl & Hr).
    exists line.
    pose proof (proj1 (read_atom_is_atom_line _ _) (ex_intro _ a Hr)) as Hal.
    apply read_atom_tokens in Hr as (H0 & H1 & H2 & H3 & _). done.
  - apply read_atoms_ascending.
Qed.

(** X10. A pattern matches a molecule exactly when every atom name
    stands in the molecule at least as many times as in the pattern; the
    order of the atoms and the atoms of other names play no part. *)
Theorem match_succeeds_iff_enough_atoms
    (atoms : list atom) (pattern : list string) :
  is_Some (find_pattern_in_molecule atoms pattern)
  <-> forall nm, count_name nm pattern <= count_name nm (name <$> atoms).
Proof. apply find_pattern_is_Some. Qed.

(** X11. A successful match returns one atom of the molecule for each
    pattern slot, in pattern order: the names of the returned atoms are
    the pattern. *)
Theorem bound_atoms_bear_the_pattern
    (atoms : list atom) (pattern : list string) (bound : list atom) :
  find_pattern_in_molecule atoms pattern = Some bound ->
  name <$> bound = pattern
  /\ length bound = length pattern
  /\ Forall (fun a => a ∈ atoms) bound.
Proof.
  intros H. split_and!.
  - by eapply find_pattern_names.
  - by apply find_pattern_bound in H as [? _].
  - apply Forall_forall. intros a Ha. by eapply find_pattern_bound_elem.
Qed.

(** X12. A match that has succeeded is not changed by atoms that come
    after it: each slot keeps the first atom of its rank. *)
Theorem later_atoms_do_not_change_a_match
    (atoms more : list atom) (pattern : list string) (bound : list atom) :
  find_pattern_in_molecule atoms pattern = Some bound ->
  find_pattern_in_molecule (atoms ++ more) pattern = Some bound.
Proof. apply find_pattern_app. Qed.

(** X13. When a molecule is processed without an exception, its lines
    are all in the output, in their order; the output holds one more line
    for each definition that matches, and nothing else: it is the
    original lines and the built lines, rearranged. *)
Theorem molecule_lines_are_kept
    (mol_lines : list string) (defs : list defn) (out : list string) :
  process_molecule mol_lines defs = Ok out ->
  sublist mol_lines out
  /\ length out
     = length mol_lines
       + length (filter (fun d => matches (read_atoms 0 mol_lines) d = true) defs)
  /\ exists insertions,
       collect_insertions mol_lines (read_atoms 0 mol_lines) defs
       = Ok insertions
       /\ out ≡ₚ insertions.*2 ++ mol_lines.
Proof.
  intros H. destruct (process_molecule_keeps _ _ _ H) as [Hs Hl].
  split_and!; try done.
  unfold process_molecule in H.
  destruct (collect_insertions _ _ _) as [insertions|e];
    [|unfold mbind, result_bind in H; discriminate H].
  rewrite result_bind_Ok in H. injection H as <-.
  exists insertions. split; [done|apply apply_insertions_perm].
Qed.

(** X14. When the definitions that match give their insertions by
    ascending index, every built line stands at its index in the
    original list of lines, lines of one index in definition order. *)
Theorem ascending_insertions_land_in_place
    (mol_lines : list string) (defs : list defn)
    (insertions : list (nat * string)) :
  collect_insertions mol_lines (read_atoms 0 mol_lines) defs = Ok insertions ->
  ascending 0 insertions ->
  process_molecule mol_lines defs = Ok (splice 0 insertions mol_lines).
Proof.
  intros Hc Hasc. unfold process_molecule. rewrite Hc, result_bind_Ok.
  f_equal. apply apply_insertions_ascending; [done|].
  by apply collect_insertions_count in Hc as [_ ?].
Qed.

(** X15. With one definition that matches, the built line stands right
    after the line of the last atom of the pattern, wherever that atom
    is in the molecule, and the other lines keep their order around it. *)
Theorem single_insertion_follows_last_bound_atom
    (mol_lines : list string) (d : defn) (bound : list atom)
    (i : nat) (l : string) :
  find_pattern_in_molecule (read_atoms 0 mol_lines) (atom_names d) = Some bound ->
  bound <> [] ->
  make_insertion mol_lines d bound = Ok (i, l) ->
  exists last_atom line,
    last bound = Some last_atom
    /\ mol_lines !! line_index last_atom = Some line
    /\ i = line_index last_atom + 1
    /\ process_molecule mol_lines [d]
       = Ok (take i mol_lines ++ l :: drop i mol_lines)
    /\ (take i mol_lines ++ l :: drop i mol_lines) !! line_index last_atom
       = Some line
    /\ (take i mol_lines ++ l :: drop i mol_lines) !! i = Some l.
Proof.
  intros Hfind Hne Hm.
  destruct (make_insertion_index _ _ _ _ _ Hm) as (Hi & last_atom & Hlast & ->).
  assert (Hlt : line_index last_atom < length mol_lines) by lia.
  destruct (lookup_lt_is_Some_2 mol_lines _ Hlt) as [line Hline].
  exists last_atom, line. split_and!; try done.
  - unfold process_molecule. simpl. rewrite Hfind.
    destruct bound as [|a pa]; [done|]. rewrite Hm. reflexivity.
  - rewrite lookup_app_l by (rewrite length_take; lia).
    rewrite lookup_take_lt by lia. done.
  - rewrite lookup_app_r by (rewrite length_take; lia).
    rewrite length_take, Nat.min_l by lia. by rewrite Nat.sub_diag.
Qed.

(** X16. With definitions that have a coefficient for each pattern atom
    and at least one pattern atom, a molecule in which no atom line has
    exactly 8 tokens is processed without an exception. *)
Theorem molecule_without_eight_token_line_is_processed
    (mol_lines : list string) (defs : list defn) :
  Forall well_formed defs ->
  Forall (fun l => ~ risky l) mol_lines ->
  exists out, process_molecule mol_lines defs = Ok out.
Proof. apply process_molecule_safe. Qed.

End AddGenMsiteExtras.

Section MainExtras.
Import AddGenMsite MatcherSpec MatcherFacts SynthFacts.
Import MsiteDefinitions MsiteDefinitionsFacts AddGenMsiteMore.
Context {F : PyFloat}.

(** X17. The lines before the first line with a molecule id are written
    unchanged, whatever they hold, and the run goes on as it would on
    the rest alone; an input with no such line is copied as it is. *)
Theorem header_is_copied (defs : list defn) (header rest : list string) :
  Forall (fun l => get_molecule_id l = None) header ->
  main defs (header ++ rest)
  = Run (header ++ stdout (main defs rest)) (stderr (main defs rest))
        (uncaught (main defs rest))
  /\ stdout (main defs header) = header
  /\ uncaught (main defs header) = None.
Proof.
  intros Hh. split_and!.
  - unfold main. by rewrite main_loop_header.
  - unfold main. rewrite <- (app_nil_r header) at 1.
    rewrite main_loop_header by done. simpl. by rewrite app_nil_r.
  - unfold main. rewrite <- (app_nil_r header).
    by rewrite main_loop_header.
Qed.

(** X18. With an empty list of definitions the tool writes its input
    unchanged, prints the warning that no definition was found, and
    ends normally, whatever the input. *)
Theorem no_definitions_copies_input (input : list string) :
  main [] input = Run input [no_definitions_warning] None.
Proof.
  unfold main. by rewrite main_loop_no_definitions.
Qed.

(** X19. A run that ends without an exception has written every input
    line, in input order: lines are only ever added. *)
Theorem input_lines_are_all_written (defs : list defn) (input : list string) :
  uncaught (main defs input) = None ->
  sublist input (stdout (main defs input)).
Proof.
  apply main_keeps_input.
Qed.

(** X20. Whatever the definition file holds, a run on an input in which
    no atom line has exactly 8 tokens ends without an exception, with
    every input line written in input order; standard error holds the
    loader's warnings and, if no definition was loaded, the warning
    about that. *)
Theorem run_without_eight_token_atom_line_ends_normally
    (def_file input : list string) :
  Forall (fun l => ~ risky l) input ->
  uncaught (main_with_file def_file input) = None
  /\ sublist input (stdout (main_with_file def_file input))
  /\ stderr (main_with_file def_file input)
     = (parse_msite_definitions def_file).2
       ++ match (parse_msite_definitions def_file).1 with
          | [] => [no_definitions_warning]
          | _ => []
          end.
Proof.
  intros Hin.
  assert (Hu : uncaught (main (parse_msite_definitions def_file).1 input)
               = None).
  { unfold main. simpl. apply main_loop_safe; [|done|constructor].
    apply parse_blocks_well_formed. }
  split_and!; [done| |done].
  unfold main_with_file. simpl stdout.
  by apply main_keeps_input.
Qed.

(** X21. After the header, a body made of molecules, each a run of
    lines with one molecule id and an id other than its neighbour's, is
    handled molecule by molecule: the output is the header and then what
    [process_molecule] gives for each molecule, in order, up to the first
    that raises; if none raises it is the header and all the processed
    molecules. *)
Theorem molecules_are_processed_one_by_one
    (defs : list defn) (header : list string)
    (groups : list (string * list string)) (outs : list (list string)) :
  Forall (fun l => get_molecule_id l = None) header ->
  grouped None groups ->
  main defs (header ++ flat_map snd groups)
  = Run (header ++ (emit defs groups).1)
        (match defs with [] => [no_definitions_warning] | _ => [] end)
        (emit defs groups).2
  /\ (Forall2 (fun g o => process_molecule g.2 defs = Ok o) groups outs ->
      main defs (header ++ flat_map snd groups)
      = Run (header ++ concat outs)
            (match defs with [] => [no_definitions_warning] | _ => [] end)
            None).
Proof.
  intros Hh Hg.
  assert (Hmain : main defs (header ++ flat_map snd groups)
                  = Run (header ++ (emit defs groups).1)
                      (match defs with [] => [no_definitions_warning] | _ => [] end)
                      (emit defs groups).2).
  { unfold main. rewrite main_loop_header by done.
    rewrite (main_loop_groups defs groups None [] true Hg). done. }
  split; [done|]. intros Hall. rewrite Hmain.
  rewrite (emit_all_Ok defs groups outs Hall); [done|].
  clear -Hg. revert Hg. generalize (@None string).
  induction groups as [|g groups IH]; intros prev; [constructor|].
  simpl. intros (_ & [Hne _] & Hrest). constructor; [done|by eapply IH].
Qed.

(** X22. A line that the insertion tool takes as an atom line, or that
    carries a molecule id, is never taken as a count line by the
    normaliser. *)
Theorem atom_and_id_lines_are_not_count_lines (line : string) :
  is_atom_line line = true \/ get_molecule_id line <> None ->
  FixLinenu.is_line_count line = false.
Proof.
  intros H.
  assert (Hlen : 2 <= length (split line)).
  { destruct H as [H|H].
    - unfold is_atom_line in H.
      destruct (length (split line) <? 4) eqn:E; [done|].
      apply Nat.ltb_ge in E. lia.
    - unfold get_molecule_id in H.
      destruct (8 <=? length (split line)) eqn:E; [|done].
      apply Nat.leb_le in E. lia. }
  unfold FixLinenu.is_line_count. rewrite split_strip.
  destruct (split line) as [|t [|u ts]]; simpl in Hlen; try lia; done.
Qed.

End MainExtras.

Section ExtrasWitnesses.
Import AddGenMsite MatcherSpec MatcherFacts SynthFacts.
Import MsiteDefinitions MsiteDefinitionsFacts AddGenMsiteMore.
Local Existing Instance IntFloat.

Local Abbreviation lA := (ln "A 1 0 0 0 0 0 1.0 7").
Local Abbreviation lB := (ln "B 2 0 0 0 0 0 1.0 7").
Local Abbreviation lC := (ln "C 3 0 0 0 0 0 1.0 7").
Local Abbreviation lD := (ln "D 4 0 0 0 0 0 1.0 7").
Local Abbreviation dA := (@Defn IntFloat "X" ["A"] "MA" [1%Z]).
Local Abbreviation dD := (@Defn IntFloat "X" ["D"] "MD" [1%Z]).
Local Abbreviation mA := (ln "MA         1.0000000   0.0000000   0.0000000     0.0000000     0.0000000     0.0000000     1.0     7").
Local Abbreviation mD := (ln "MD         4.0000000   0.0000000   0.0000000     0.0000000     0.0000000     0.0000000     1.0     7").
Local Abbreviation aA := (@Atom IntFloat "A" 1%Z 0%Z 0%Z 0).
Local Abbreviation aB := (@Atom IntFloat "B" 2%Z 0%Z 0%Z 1).
Local Abbreviation aD := (@Atom IntFloat "D" 4%Z 0%Z 0%Z 3).

Lemma atoms_are_the_atom_lines_witness :
  line_index (@Atom IntFloat "A" 1%Z 0%Z 0%Z 1)
  < line_index (@Atom IntFloat "D" 4%Z 0%Z 0%Z 3).
Proof.
  refine (proj2 (proj2 (atoms_are_the_atom_lines [ln "3"; lA; ln "note"; lD]))
            0 1 _ _ _ _ _).
  - reflexivity.
  - reflexivity.
  - lia.
Defined.

Lemma match_succeeds_iff_enough_atoms_witness :
  is_Some (find_pattern_in_molecule [aA; aB; aA] ["A"; "A"]).
Proof.
  apply (proj2 (match_succeeds_iff_enough_atoms [aA; aB; aA] ["A"; "A"])).
  intros nm. unfold count_name. simpl.
  rewrite !filter_cons, !filter_nil.
  repeat case_decide; simpl; lia.
Defined.

Lemma bound_atoms_bear_the_pattern_witness :
  name <$> [aD; aA] = ["D"; "A"].
Proof.
  apply (bound_atoms_bear_the_pattern [aA; aB; aD] ["D"; "A"] [aD; aA]).
  reflexivity.
Defined.

Lemma later_atoms_do_not_change_a_match_witness :
  find_pattern_in_molecule ([aA; aB] ++ [aA; aD]) ["B"; "A"] = Some [aB; aA].
Proof.
  apply (later_atoms_do_not_change_a_match [aA; aB] [aA; aD] ["B"; "A"]).
  reflexivity.
Defined.

Lemma molecule_lines_are_kept_witness :
  sublist [lA; lB; lC; lD] [lA; mA; lB; lC; mD; lD].
Proof.
  apply (molecule_lines_are_kept [lA; lB; lC; lD] [dD; dA]
           [lA; mA; lB; lC; mD; lD]).
  reflexivity.
Defined.

Lemma ascending_insertions_land_in_place_witness :
  process_molecule [lA; lB; lC; lD] [dA; dD]
  = Ok (splice 0 [(1, mA); (4, mD)] [lA; lB; lC; lD]).
Proof.
  apply (ascending_insertions_land_in_place [lA; lB; lC; lD] [dA; dD]
           [(1, mA); (4, mD)]).
  - reflexivity.
  - simpl. lia.
Defined.

Lemma single_insertion_follows_last_bound_atom_witness :
  exists last_atom line,
    last [aA] = Some last_atom
    /\ [lA; lB; lC; lD] !! line_index last_atom = Some line
    /\ 1 = line_index last_atom + 1
    /\ process_molecule [lA; lB; lC; lD] [dA]
       = Ok (take 1 [lA; lB; lC; lD] ++ mA :: drop 1 [lA; lB; lC; lD])
    /\ (take 1 [lA; lB; lC; lD] ++ mA :: drop 1 [lA; lB; lC; lD])
       !! line_index last_atom = Some line
    /\ (take 1 [lA; lB; lC; lD] ++ mA :: drop 1 [lA; lB; lC; lD]) !! 1
       = Some mA.
Proof.
  apply (single_insertion_follows_last_bound_atom [lA; lB; lC; lD] dA [aA] 1 mA).
  - reflexivity.
  - done.
  - reflexivity.
Defined.

Lemma molecule_without_eight_token_line_is_processed_witness :
  exists out, process_molecule [lA; ln "B 2 0 0"; lD] [dD; dA] = Ok out.
Proof.
  apply (molecule_without_eight_token_line_is_processed
           [lA; ln "B 2 0 0"; lD] [dD; dA]).
  - repeat constructor; done.
  - repeat constructor; intros [_ H]; vm_compute in H; discriminate H.
Defined.

Lemma header_is_copied_witness :
  main [dA] ([ln "1"; ln "a frame"] ++ [lA])
  = Run ([ln "1"; ln "a frame"] ++ stdout (main [dA] [lA]))
        (stderr (main [dA] [lA])) (uncaught (main [dA] [lA])).
Proof.
  refine (proj1 (header_is_copied [dA] [ln "1"; ln "a frame"] [lA] _)).
  repeat constructor.
Defined.

Lemma input_lines_are_all_written_witness :
  sublist [ln "2"; ln "c"; lA; lD] (stdout (main [dD; dA] [ln "2"; ln "c"; lA; lD])).
Proof.
  apply (input_lines_are_all_written [dD; dA] [ln "2"; ln "c"; lA; lD]).
  reflexivity.
Defined.

Lemma run_without_eight_token_atom_line_ends_normally_witness :
  uncaught (main_with_file [ln "X"; ln "A MA"; ln "1"; ln "Y"; ln "B"; ln "2"]
              [ln "1"; ln "c"; lA; ln "A 1 2 3 4 5 6 7 8 9"])
  = None.
Proof.
  refine (proj1 (run_without_eight_token_atom_line_ends_normally
                   [ln "X"; ln "A MA"; ln "1"; ln "Y"; ln "B"; ln "2"]
                   [ln "1"; ln "c"; lA; ln "A 1 2 3 4 5 6 7 8 9"] _)).
  repeat constructor; intros [_ H]; vm_compute in H; discriminate H.
Defined.

Lemma molecules_are_processed_one_by_one_witness :
  main [dA] ([ln "2"; ln "c"] ++ flat_map snd [("7", [lA; lB]); ("8", [ln "A 5 0 0 0 0 0 1.0 8"])])
  = Run ([ln "2"; ln "c"]
         ++ concat [[lA; mA; lB];
                    [ln "A 5 0 0 0 0 0 1.0 8";
                     ln "MA         5.0000000   0.0000000   0.0000000     0.0000000     0.0000000     0.0000000     1.0     8"]])
        [] None.
Proof.
  refine (proj2 (molecules_are_processed_one_by_one [dA] [ln "2"; ln "c"]
                   [("7", [lA; lB]); ("8", [ln "A 5 0 0 0 0 0 1.0 8"])]
                   _ _ _) _).
  - repeat constructor.
  - simpl. unfold molecule. split_and!; try done; repeat constructor.
  - repeat constructor.
Defined.

Lemma atom_and_id_lines_are_not_count_lines_witness :
  FixLinenu.is_line_count lA = false.
Proof.
  apply atom_and_id_lines_are_not_count_lines. left. reflexivity.
Defined.

End ExtrasWitnesses.

(** ** Usage/04_gen_ref.py *)

Section GenRefExtras.
Import GenRef MsiteDefinitionsFacts.

Lemma split_go_pending cur l : cur <> [] -> split_go cur l <> [].
Proof.
  revert cur. induction l as [|c l IH]; intros cur Hcur; simpl.
  - by destruct cur.
  - destruct (is_space c); [by destruct cur|]. by apply IH.
Qed.

Lemma split_go_nonempty cur l c :
  c ∈ l -> is_space c = false -> split_go cur l <> [].
Proof.
  revert cur. induction l as [|d l IH]; intros cur Hin Hc.
  { by apply elem_of_nil in Hin. }
  simpl. destruct (is_space d) eqn:Ed.
  - apply elem_of_cons in Hin as [->|Hin]; [congruence|].
    destruct cur; [by apply IH|done].
  - by apply split_go_pending.
Qed.

Lemma lstrip_go_head l c t : lstrip_go l = c :: t -> is_space c = false.
Proof.
  induction l as [|d l IH]; [done|]. simpl.
  destruct (is_space d) eqn:Ed; [done|]. by intros [= <- _].
Qed.

(** A line with other than white space has a token. *)
Lemma split_nonempty_of_nonblank s : strip s <> "" -> split s <> [].
Proof.
  intros Hs. rewrite <- split_strip. unfold split, strip in *.
  rewrite list_ascii_of_string_of_list_ascii.
  set (m := lstrip_go (list_ascii_of_string s)) in *.
  destruct (lstrip_go (rev m)) as [|c t] eqn:El; [done|].
  pose proof (lstrip_go_head _ _ _ El) as Hc.
  intros Hnil. apply fmap_nil_inv in Hnil.
  apply (split_go_nonempty [] (rev (c :: t)) c); [|done|done].
  apply list_elem_of_In. apply (proj1 (in_rev (c :: t) c)). by left.
Qed.

(** X23. Reading the first tokens of a file never fails: every line
    with other than white space has a first token, and the result is
    the first token of each such line, in file order; blank lines give
    nothing. *)
Theorem first_tokens_never_fail (f : list string) :
  get_pxyz_atoms f = Ok (omap (fun line => head (split line)) f)
  /\ get_mm_atoms f = get_pxyz_atoms f
  /\ length (omap (fun line => head (split line)) f)
     = length (filter (fun line => strip line <> "") f).
Proof.
  unfold get_pxyz_atoms, get_mm_atoms.
  split_and!; [|done|]; induction f as [|line f IH]; try done; simpl.
  - destruct (decide (strip line <> "")) as [Hs|Hs].
    + apply split_nonempty_of_nonblank in Hs.
      destruct (split line) as [|t ts]; [done|]. simpl.
      by rewrite IH.
    + apply dec_stable in Hs. apply split_empty_of_blank in Hs.
      by rewrite Hs.
  - rewrite filter_cons.
    destruct (decide (strip line <> "")) as [Hs|Hs].
    + apply split_nonempty_of_nonblank in Hs.
      destruct (split line) as [|t ts]; [done|]. simpl. f_equal. exact IH.
    + apply dec_stable in Hs. apply split_empty_of_blank in Hs.
      rewrite Hs. exact IH.
Qed.

(** X24. [remove_msite] returns the atom names of its first argument,
    each once, whatever its second argument holds: no name is removed
    and none is added. *)
Theorem remove_msite_returns_qm_atoms (qm_atoms mm_atoms : list string) :
  remove_msite qm_atoms mm_atoms = list_to_set qm_atoms
  /\ forall nm, nm ∈ remove_msite qm_atoms mm_atoms <-> nm ∈ qm_atoms.
Proof.
  unfold remove_msite. split.
  - apply set_eq. intros nm.
    rewrite elem_of_union, elem_of_intersection. tauto.
  - intros nm.
    rewrite elem_of_union, elem_of_intersection, !elem_of_list_to_set. tauto.
Qed.

End GenRefExtras.
